(** * Verification of [main.py]: model graph, tree materializer, metadata
      generator, delta engine and patch applier.

    The Python program is embedded shallowly.  A Python [dict] is an
    insertion-ordered association list with the interpreter's update rules
    (assigning to a present key replaces the value in place, assigning to an
    absent key appends the entry).  Exceptions are values of [exn] carried by
    [outcome].  The recursion of [build_xml_element] is structural on the
    recursion depth the interpreter still allows; where that depth is used
    up the interpreter raises [RecursionError].

    [json.dumps] followed by [json.loads] is the identity on values that
    were themselves read by [json.load], so the serialised artefacts are
    represented by the structures they serialise. *)

From Stdlib Require Import List String Ascii Bool Arith ZArith Lia Relations.
Import ListNotations.

Set Warnings "-register-all".

Open Scope string_scope.
Open Scope list_scope.

(** * Part I: the program *)

(** ** Exceptions and outcomes *)

Inductive exn : Type :=
| StopIteration     (* [next] on an exhausted generator *)
| KeyError          (* subscript of a dict with an absent key *)
| ValueError        (* unpacking a sequence of the wrong length *)
| TypeError         (* [in] applied to [None] *)
| RecursionError.   (* recursion deeper than the interpreter allows *)

Inductive outcome (A : Type) : Type :=
| Ok (a : A)
| Raise (e : exn).

Arguments Ok {A} a.
Arguments Raise {A} e.

Definition bind {A B : Type} (r : outcome A) (k : A -> outcome B) : outcome B :=
  match r with
  | Ok a => k a
  | Raise e => Raise e
  end.

Notation "x <- r ;; k" := (bind r (fun x => k))
  (at level 61, r at next level, right associativity).

(** [for a in l: s = f(s, a)], where the body may raise *)
Fixpoint foldM {A S : Type} (f : S -> A -> outcome S) (l : list A) (s : S)
  : outcome S :=
  match l with
  | [] => Ok s
  | a :: r => s' <- f s a ;; foldM f r s'
  end.

(** ** Python dictionaries with string keys *)

Module Dict.

Section Ops.
Context {V : Type}.

Definition dict := list (string * V).

(** [d.get(k)] / [d[k]] *)
Fixpoint get (k : string) (d : dict) : option V :=
  match d with
  | [] => None
  | (k', v) :: r => if String.eqb k' k then Some v else get k r
  end.

(** [k in d] *)
Definition mem (k : string) (d : dict) : bool :=
  match get k d with Some _ => true | None => false end.

(** [d[k] = v]: in place when [k] is present, appended otherwise *)
Fixpoint set (k : string) (v : V) (d : dict) : dict :=
  match d with
  | [] => [(k, v)]
  | (k', v') :: r =>
      if String.eqb k' k then (k, v) :: r else (k', v') :: set k v r
  end.

(** [d.pop(k, None)]: no error when [k] is absent *)
Definition pop (k : string) (d : dict) : dict :=
  filter (fun e => negb (String.eqb (fst e) k)) d.

Definition keys (d : dict) : list string := map fst d.

(** the representation invariant of a dict: no key occurs twice *)
Definition wf (d : dict) : Prop := NoDup (keys d).

End Ops.

Arguments dict V : clear implicits.

End Dict.

(** ** Strings: ['  ' * n], [sep.join], ['..' in s], [s.split('..')] *)

Fixpoint str_repeat (s : string) (n : nat) : string :=
  match n with
  | 0 => ""
  | S n' => s ++ str_repeat s n'
  end.

Fixpoint str_join (sep : string) (l : list string) : string :=
  match l with
  | [] => ""
  | [s] => s
  | s :: r => s ++ sep ++ str_join sep r
  end.

(** [s.startswith(sub)] *)
Fixpoint str_prefix (sub s : string) : bool :=
  match sub, s with
  | "", _ => true
  | String _ _, "" => false
  | String a sub', String b s' => Ascii.eqb a b && str_prefix sub' s'
  end.

(** [sub in s] *)
Fixpoint str_in (sub s : string) : bool :=
  str_prefix sub s ||
  match s with
  | "" => false
  | String _ s' => str_in sub s'
  end.

Definition is_dot (c : ascii) : bool := Ascii.eqb c ".".

(** prepend a character to the piece being scanned *)
Definition push_char (c : ascii) (pieces : list string) : list string :=
  match pieces with
  | [] => [String c ""]
  | p :: r => String c p :: r
  end.

(** [s.split('..')]: the separators are found left to right and do not
    overlap *)
Fixpoint split_dotdot (s : string) : list string :=
  match s with
  | "" => [""]
  | String c s' =>
      match s' with
      | "" => [String c ""]
      | String c' r =>
          if is_dot c && is_dot c' then "" :: split_dotdot r
          else push_char c (split_dotdot s')
      end
  end.

(** ** The model graph *)

Record attribute : Type := mk_attribute {
  attr_name : string;
  attr_type : string
}.

Record child : Type := mk_child {
  child_name : string;
  child_multiplicity : option string
}.

Record class_data : Type := mk_class {
  isRoot : bool;
  documentation : string;
  attributes : list attribute;
  children : list child
}.

(** An [<Aggregation>] element as [ElementTree] hands it over.  The two
    multiplicities are optional XML attributes ([agg.get] gives [None] for
    an absent one).  An edge without [source] or [target] matches no class
    name; it is an edge whose [source] or [target] is not declared. *)
Record aggregation : Type := mk_aggregation {
  source : string;
  target : string;
  sourceMultiplicity : option string;
  targetMultiplicity : option string
}.

(** A [<Class>] element as [ElementTree] hands it over: [isRoot] and
    [documentation] are optional XML attributes. *)
Record class_elem : Type := mk_class_elem {
  ce_name : string;
  ce_isRoot : option string;
  ce_documentation : option string;
  ce_attributes : list attribute
}.

Definition classes_t := Dict.dict class_data.

(** [classes[target]['children'].append(c)] *)
Definition append_child (tgt : string) (c : child) (classes : classes_t)
  : classes_t :=
  match Dict.get tgt classes with
  | Some d =>
      Dict.set tgt
        (mk_class (isRoot d) (documentation d) (attributes d)
                  (children d ++ [c]))
        classes
  | None => classes
  end.

Definition parse_class (classes : classes_t) (ce : class_elem) : classes_t :=
  let is_root :=
    match ce_isRoot ce with
    | Some s => String.eqb s "true"
    | None => false
    end in
  let doc :=
    match ce_documentation ce with
    | Some s => s
    | None => ""
    end in
  Dict.set (ce_name ce) (mk_class is_root doc (ce_attributes ce) []) classes.

Definition parse_aggregation (st : classes_t * list aggregation)
  (agg : aggregation) : classes_t * list aggregation :=
  let (classes, aggregations) := st in
  let aggregations := aggregations ++ [agg] in
  if Dict.mem (source agg) classes && Dict.mem (target agg) classes
  then (append_child (target agg)
          (mk_child (source agg) (sourceMultiplicity agg)) classes,
        aggregations)
  else (classes, aggregations).

Definition parse_xml (class_elems : list class_elem)
  (agg_elems : list aggregation) : classes_t * list aggregation :=
  let classes := fold_left parse_class class_elems [] in
  fold_left parse_aggregation agg_elems (classes, []).

(** ** Tree materializer: [generate_config_xml] *)

Definition indent_str (indent : nat) : string := str_repeat "  " indent.

Definition open_tag (indent : nat) (class_name : string) : string :=
  indent_str indent ++ "<" ++ class_name ++ ">".

Definition close_tag (indent : nat) (class_name : string) : string :=
  indent_str indent ++ "</" ++ class_name ++ ">".

Definition attr_line (indent : nat) (attr : attribute) : string :=
  indent_str indent ++
  "<" ++ attr_name attr ++ ">" ++ attr_type attr ++ "</" ++ attr_name attr ++ ">".

(** The nested function [build_xml_element(class_name, indent)].  [depth]
    is the number of nested calls the interpreter still allows: a call made
    when none is left raises [RecursionError].  The body is the source's:
    look the class up, emit the opening tag, the attribute lines, the block
    of every child at [indent + 1], and the closing tag. *)
Fixpoint build_xml_element (depth : nat) (classes : classes_t)
  (class_name : string) (indent : nat) : outcome (list string) :=
  match depth with
  | 0 => Raise RecursionError
  | S depth' =>
      match Dict.get class_name classes with
      | None => Raise KeyError
      | Some class_data =>
          let xml := [open_tag indent class_name] in
          let xml := xml ++ map (attr_line (indent + 1)) (attributes class_data) in
          xml <- foldM (fun xml ch =>
                          sub <- build_xml_element depth' classes
                                   (child_name ch) (indent + 1) ;;
                          Ok (xml ++ sub))
                       (children class_data) xml ;;
          Ok (xml ++ [close_tag indent class_name])
      end
  end.

(** [next(c for c, data in classes.items() if data['isRoot'])] *)
Fixpoint first_root (classes : classes_t) : outcome string :=
  match classes with
  | [] => Raise StopIteration
  | (c, data) :: r => if isRoot data then Ok c else first_root r
  end.

Definition dquote : string := String (ascii_of_nat 34) "".

Definition xml_header : string :=
  "<?xml version=" ++ dquote ++ "1.0" ++ dquote ++
  " encoding=" ++ dquote ++ "UTF-8" ++ dquote ++ "?>".

Definition newline : string := String (ascii_of_nat 10) "".

Definition generate_config_xml (depth : nat) (classes : classes_t)
  : outcome string :=
  root_class <- first_root classes ;;
  body <- build_xml_element depth classes root_class 0 ;;
  Ok (str_join newline (xml_header :: body)).

(** ** Metadata generator: [generate_meta_json] *)

Record parameter : Type := mk_parameter {
  param_name : string;
  param_type : string
}.

(** One descriptor; [meta_min] and [meta_max] are the keys ['min'] and
    ['max'], absent ([None]) when the entry was built for a root class. *)
Record meta_entry : Type := mk_meta {
  meta_class : string;
  meta_documentation : string;
  meta_isRoot : bool;
  meta_parameters : list parameter;
  meta_min : option string;
  meta_max : option string
}.

(** Lines 89-94 for a multiplicity that is a string.  The tuple
    assignment [min_val, max_val = source_mult.split('..')] raises
    [ValueError] unless the split has exactly two pieces. *)
Definition parse_multiplicity (source_mult : string)
  : outcome (string * string) :=
  if str_in ".." source_mult then
    match split_dotdot source_mult with
    | [min_val; max_val] => Ok (min_val, max_val)
    | _ => Raise ValueError
    end
  else Ok (source_mult, source_mult).

(** Lines 88-94 for the value [agg['sourceMultiplicity']]: the test
    ['..' in source_mult] raises [TypeError] when the value is [None]. *)
Definition multiplicity_bounds (source_mult : option string)
  : outcome (string * string) :=
  match source_mult with
  | None => Raise TypeError
  | Some s => parse_multiplicity s
  end.

(** Lines 84-94: the scan of [aggregations] for one class; the dictionary
    [multiplicity] is the pair (min, max). *)
Definition class_multiplicity (aggregations : list aggregation)
  (class_name : string) : outcome (string * string) :=
  foldM (fun multiplicity agg =>
           if String.eqb (source agg) class_name
           then multiplicity_bounds (sourceMultiplicity agg)
           else Ok multiplicity)
        aggregations ("0", "*").

Definition class_parameters (class_data : class_data) : list parameter :=
  map (fun attr => mk_parameter (attr_name attr) (attr_type attr))
      (attributes class_data) ++
  map (fun ch => mk_parameter (child_name ch) "class") (children class_data).

Definition meta_of_class (aggregations : list aggregation)
  (class_name : string) (class_data : class_data) : outcome meta_entry :=
  multiplicity <- class_multiplicity aggregations class_name ;;
  let parameters := class_parameters class_data in
  Ok (mk_meta class_name (documentation class_data) (isRoot class_data)
        parameters
        (if isRoot class_data then None else Some (fst multiplicity))
        (if isRoot class_data then None else Some (snd multiplicity))).

Definition generate_meta_json (classes : classes_t)
  (aggregations : list aggregation) : outcome (list meta_entry) :=
  foldM (fun meta e =>
           entry <- meta_of_class aggregations (fst e) (snd e) ;;
           Ok (meta ++ [entry]))
        classes [].

(** ** Delta engine and patch applier *)

Section DeltaEngine.

(** The values of a ConfigMap and Python's [==] on them; [!=] is its
    negation on every type [json.load] produces. *)
Variable value : Type.
Variable py_eqb : value -> value -> bool.

Record addition : Type := mk_addition {
  add_key : string;
  add_value : value
}.

Record update : Type := mk_update {
  upd_key : string;
  upd_from : value;
  upd_to : value
}.

Record delta : Type := mk_delta {
  additions : list addition;
  deletions : list string;
  updates : list update
}.

Definition config_t := Dict.dict value.

Definition delta_additions (config patched_config : config_t)
  : list addition :=
  flat_map (fun e =>
              if Dict.mem (fst e) config then []
              else [mk_addition (fst e) (snd e)])
           patched_config.

Definition delta_deletions (config patched_config : config_t)
  : list string :=
  flat_map (fun key => if Dict.mem key patched_config then [] else [key])
           (Dict.keys config).

Definition delta_updates (config patched_config : config_t)
  : list update :=
  flat_map (fun key =>
              match Dict.get key patched_config, Dict.get key config with
              | Some to, Some from =>
                  if py_eqb from to then [] else [mk_update key from to]
              | _, _ => []
              end)
           (Dict.keys config).

Definition generate_delta_json (config patched_config : config_t) : delta :=
  mk_delta (delta_additions config patched_config)
           (delta_deletions config patched_config)
           (delta_updates config patched_config).

Definition generate_res_patched_config (config : config_t) (d : delta)
  : config_t :=
  let result := config in
  let result := fold_left (fun r key => Dict.pop key r) (deletions d) result in
  let result :=
    fold_left (fun r u => Dict.set (upd_key u) (upd_to u) r) (updates d) result in
  fold_left (fun r a => Dict.set (add_key a) (add_value a) r) (additions d) result.

End DeltaEngine.

Arguments mk_addition {value}.
Arguments add_key {value}.
Arguments add_value {value}.
Arguments mk_update {value}.
Arguments upd_key {value}.
Arguments upd_from {value}.
Arguments upd_to {value}.
Arguments mk_delta {value}.
Arguments additions {value}.
Arguments deletions {value}.
Arguments updates {value}.
Arguments delta_additions {value}.
Arguments delta_deletions {value}.
Arguments delta_updates {value}.
Arguments generate_delta_json {value}.
Arguments generate_res_patched_config {value}.

(** ** JSON values as [json.load] builds them

    Numbers are the integers; a number with a fraction or an exponent is a
    Python [float] and is not represented.  The results on the delta engine
    that do not mention [json] hold for any type of values. *)

Inductive json : Type :=
| JNull
| JBool (b : bool)
| JInt (n : Z)
| JStr (s : string)
| JArr (l : list json)
| JObj (l : list (string * json)).

Definition Z_of_bool (b : bool) : Z := if b then 1%Z else 0%Z.

(** Python's [==] on these values: [bool] is a subclass of [int], so [True]
    equals [1] and [False] equals [0]; lists are compared element by
    element, dicts by key set and value whatever the order. *)
Fixpoint json_py_eqb (a b : json) {struct a} : bool :=
  match a, b with
  | JNull, JNull => true
  | JBool x, JBool y => Bool.eqb x y
  | JBool x, JInt n => Z.eqb (Z_of_bool x) n
  | JInt n, JBool x => Z.eqb n (Z_of_bool x)
  | JInt n, JInt m => Z.eqb n m
  | JStr s, JStr t => String.eqb s t
  | JArr l, JArr m =>
      (fix go (l m : list json) {struct l} : bool :=
         match l, m with
         | [], [] => true
         | x :: l', y :: m' => json_py_eqb x y && go l' m'
         | _, _ => false
         end) l m
  | JObj l, JObj m =>
      Nat.eqb (List.length l) (List.length m) &&
      forallb (fun e =>
                 match Dict.get (fst e) m with
                 | Some w => json_py_eqb (snd e) w
                 | None => false
                 end) l
  | _, _ => false
  end.

(** * Part II: notions the statements are written in *)

(** ** Loops that may raise *)

(** [[g(a) for a in l]], stopping at the first element that does not return *)
Fixpoint mapM {A B : Type} (g : A -> outcome B) (l : list A)
  : outcome (list B) :=
  match l with
  | [] => Ok []
  | a :: r => b <- g a ;; bs <- mapM g r ;; Ok (b :: bs)
  end.

(** ** Bindings of a delta *)

(** The value bound to [k] by the last element of [l] whose key is [k]. *)
Fixpoint last_binding {A V : Type} (kf : A -> string) (vf : A -> V)
  (k : string) (l : list A) : option V :=
  match l with
  | [] => None
  | a :: r =>
      match last_binding kf vf k r with
      | Some v => Some v
      | None => if String.eqb (kf a) k then Some (vf a) else None
      end
  end.

(** ** Containment *)

(** Every child entry names a key of the mapping. *)
Definition closed (classes : classes_t) : Prop :=
  forall c d ch,
    In (c, d) classes -> In ch (children d) ->
    Dict.mem (child_name ch) classes = true.

(** [step classes c c']: class [c] has a child entry naming [c']. *)
Definition step (classes : classes_t) (c c' : string) : Prop :=
  exists d ch,
    Dict.get c classes = Some d /\ In ch (children d) /\ child_name ch = c'.

(** classes reachable from [c] along containment *)
Definition reaches (classes : classes_t) : string -> string -> Prop :=
  clos_refl_trans string (step classes).

(** [c] lies on a containment cycle *)
Definition on_cycle (classes : classes_t) (c : string) : Prop :=
  clos_trans string (step classes) c c.

Definition acyclic (classes : classes_t) : Prop :=
  forall c, ~ on_cycle classes c.

(** a containment path, listed from its first class *)
Inductive walk (classes : classes_t) : string -> list string -> Prop :=
| walk_one (c : string) : walk classes c [c]
| walk_cons (c c' : string) (p : list string) :
    step classes c c' -> walk classes c' p -> walk classes c (c :: p).

(** The containment hierarchy below a class, one node per containment
    path. *)
Inductive tree : Type :=
| Node (name : string) (attrs : list attribute) (subs : list tree).

Inductive unfolds (classes : classes_t) : string -> tree -> Prop :=
| unfolds_node (c : string) (d : class_data) (ts : list tree) :
    Dict.get c classes = Some d ->
    Forall2 (fun ch t => unfolds classes (child_name ch) t) (children d) ts ->
    unfolds classes c (Node c (attributes d) ts).

Fixpoint height (t : tree) : nat :=
  match t with
  | Node _ _ subs => S (fold_right Nat.max 0 (map height subs))
  end.

(** the class names at the nodes of a tree *)
Fixpoint labels (t : tree) : list string :=
  match t with
  | Node c _ subs => c :: flat_map labels subs
  end.

(** the class names at the nodes of a tree, each node after its subtrees *)
Fixpoint labels_post (t : tree) : list string :=
  match t with
  | Node c _ subs => flat_map labels_post subs ++ [c]
  end.

(** *** The document of the specification

    These definitions are written from the specification, not from the
    program: a line is an opening tag, an attribute line or a closing tag,
    at a nesting level; a level is indented by two spaces. *)

Inductive line : Type :=
| OpenTag (class_name : string)
| AttrLine (name type : string)
| CloseTag (class_name : string).

(** The lines for a containment tree at a nesting level: the opening tag,
    one line per attribute one level deeper, the lines of each subtree one
    level deeper, in order, and the matching closing tag. *)
Fixpoint tree_lines (level : nat) (t : tree) : list (nat * line) :=
  match t with
  | Node c attrs subs =>
      (level, OpenTag c) ::
      map (fun a => (S level, AttrLine (attr_name a) (attr_type a))) attrs ++
      flat_map (tree_lines (S level)) subs ++
      [(level, CloseTag c)]
  end.

Fixpoint spaces (n : nat) : string :=
  match n with
  | 0 => ""
  | S n' => String " " (spaces n')
  end.

Definition line_text (l : line) : string :=
  match l with
  | OpenTag c => "<" ++ c ++ ">"
  | AttrLine n t => "<" ++ n ++ ">" ++ t ++ "</" ++ n ++ ">"
  | CloseTag c => "</" ++ c ++ ">"
  end.

Definition render_line (l : nat * line) : string :=
  spaces (2 * fst l) ++ line_text (snd l).

Definition render_tree (level : nat) (t : tree) : list string :=
  map render_line (tree_lines level t).

(** the classes of the opening tags and of the closing tags, in the order
    of the lines *)
Definition opening_tags (ls : list (nat * line)) : list string :=
  flat_map (fun l => match snd l with OpenTag c => [c] | _ => [] end) ls.

Definition closing_tags (ls : list (nat * line)) : list string :=
  flat_map (fun l => match snd l with CloseTag c => [c] | _ => [] end) ls.

(** the levels of the opening tags, in the order of the lines *)
Definition opening_levels (ls : list (nat * line)) : list nat :=
  flat_map (fun l => match snd l with OpenTag _ => [fst l] | _ => [] end) ls.

(** the depth of every node of a tree below level [level], in the order of
    [labels] *)
Fixpoint depths (level : nat) (t : tree) : list nat :=
  match t with
  | Node _ _ subs => level :: flat_map (depths (S level)) subs
  end.

(** the first line of the document *)
Definition xml_declaration : string :=
  "<?xml version=" ++ String (ascii_of_nat 34) "1.0" ++
  String (ascii_of_nat 34) " encoding=" ++
  String (ascii_of_nat 34) "UTF-8" ++ String (ascii_of_nat 34) "?>".

(** a text made of lines, each but the last ended by a line feed *)
Definition text_of_lines (ls : list string) : string :=
  String.concat (String (ascii_of_nat 10) "") ls.

(** ** Multiplicity bounds *)

(** The body of the loop over [aggregations] (lines 87-94), for one edge. *)
Definition scan_step (class_name : string) (multiplicity : string * string)
  (agg : aggregation) : outcome (string * string) :=
  if String.eqb (source agg) class_name
  then multiplicity_bounds (sourceMultiplicity agg)
  else Ok multiplicity.



(** ** Sample inputs *)

Definition example_base : Dict.dict json :=
  [("a", JInt 1); ("b", JInt 2)].

Definition example_patched : Dict.dict json :=
  [("b", JInt 3); ("c", JInt 4)].

(** The maps [{"a": 1}] and [{"a": true}] *)
Definition one_base : Dict.dict json := [("a", JInt 1)].
Definition one_patched : Dict.dict json := [("a", JBool true)].

(** The example of the specification: [Root] contains [Item]. *)
Definition sample_graph : classes_t * list aggregation :=
  parse_xml
    [mk_class_elem "Root" (Some "true") None [];
     mk_class_elem "Item" None (Some "an item") [mk_attribute "name" "string"]]
    [mk_aggregation "Item" "Root" (Some "1..*") (Some "1")].

Definition sample_classes : classes_t := fst sample_graph.

(** Two classes that contain each other. *)
Definition two_cycle : classes_t :=
  fst (parse_xml
         [mk_class_elem "A" (Some "true") None [];
          mk_class_elem "B" None None []]
         [mk_aggregation "B" "A" (Some "1") (Some "1"); mk_aggregation "A" "B" (Some "1") (Some "1")]).

(** A class that contains itself. *)
Definition self_loop : classes_t :=
  fst (parse_xml [mk_class_elem "A" (Some "true") None []]
                 [mk_aggregation "A" "A" (Some "1") (Some "1")]).

(** An edge with an empty upper part. *)
Definition open_range_graph : classes_t * list aggregation :=
  parse_xml
    [mk_class_elem "Root" (Some "true") None [];
     mk_class_elem "Item" None None []]
    [mk_aggregation "Item" "Root" (Some "1..") (Some "1")].

(** ** Declared classes and edges *)

(** [c] is the name of some [<Class>] element *)
Definition declared (class_elems : list class_elem) (c : string) : bool :=
  existsb (fun ce => String.eqb (ce_name ce) c) class_elems.

(** the mapping entry [parse_xml] stores for a [<Class>] element *)
Definition elem_data (ce : class_elem) : class_data :=
  mk_class
    (match ce_isRoot ce with Some s => String.eqb s "true" | None => false end)
    (match ce_documentation ce with Some s => s | None => "" end)
    (ce_attributes ce) [].

(** the child entry an edge contributes to its target *)
Definition child_of_edge (agg : aggregation) : child :=
  mk_child (source agg) (sourceMultiplicity agg).

(** [d] with more child entries *)
Definition add_children (cs : list child) (d : class_data) : class_data :=
  mk_class (isRoot d) (documentation d) (attributes d) (children d ++ cs).

(** an edge with another target multiplicity *)
Definition with_targetMultiplicity (f : aggregation -> option string)
  (agg : aggregation) : aggregation :=
  mk_aggregation (source agg) (target agg) (sourceMultiplicity agg) (f agg).

(** A mapping whose root names a class that is not declared. *)
Definition dangling_classes : classes_t :=
  [("A", mk_class true "" [] [mk_child "B" (Some "1")])].

(** the keys of [base] for which an update is recorded *)
Definition differs {value : Type} (py_eqb : value -> value -> bool)
  (base patched : Dict.dict value) (k : string) : bool :=
  match Dict.get k base, Dict.get k patched with
  | Some from, Some to => negb (py_eqb from to)
  | _, _ => false
  end.

(** Two maps whose values are strings. *)
Definition text_base : Dict.dict string :=
  [("host", "a"); ("port", "80")].

Definition text_patched : Dict.dict string :=
  [("port", "81"); ("user", "u"); ("host", "a")].

(** A model in which one edge has two separators and another has no source
    multiplicity. *)
Definition refused_classes : classes_t :=
  [("Root", mk_class true "" [] []);
   ("Item", mk_class false "" [] []);
   ("Box", mk_class false "" [] [])].

Definition refused_edges : list aggregation :=
  [mk_aggregation "Box" "Root" None (Some "1");
   mk_aggregation "Item" "Root" (Some "1..2..3") (Some "1")].

(** * Part III: properties *)

(** ** Dictionaries *)

Module DictFacts.
Import Dict.

Section Facts.
Context {V : Type}.
Implicit Types (d : dict V) (k : string) (v : V).

Lemma get_set k k' v d :
  get k' (set k v d) = if String.eqb k k' then Some v else get k' d.
Proof.
  induction d as [|[k0 v0] r IH]; simpl.
  - destruct (String.eqb_spec k k'); reflexivity.
  - destruct (String.eqb_spec k0 k) as [->|Hne]; simpl.
    + destruct (String.eqb_spec k k'); reflexivity.
    + destruct (String.eqb_spec k0 k') as [->|Hne'].
      * destruct (String.eqb_spec k k'); congruence.
      * exact IH.
Qed.

Lemma get_pop k k' d :
  get k' (pop k d) = if String.eqb k k' then None else get k' d.
Proof.
  induction d as [|[k0 v0] r IH]; simpl.
  - destruct (String.eqb k k'); reflexivity.
  - destruct (String.eqb_spec k0 k) as [->|Hne]; simpl.
    + rewrite IH. destruct (String.eqb_spec k k'); reflexivity.
    + destruct (String.eqb_spec k0 k') as [->|Hne'].
      * destruct (String.eqb_spec k k'); congruence.
      * exact IH.
Qed.

Lemma get_Some_In k v d :
  get k d = Some v -> In (k, v) d.
Proof.
  induction d as [|[k0 v0] r IH]; simpl; [discriminate|].
  destruct (String.eqb_spec k0 k) as [->|Hne].
  - intros [= ->]. now left.
  - intros H. right. now apply IH.
Qed.

Lemma get_None_keys k d :
  get k d = None <-> ~ In k (keys d).
Proof.
  induction d as [|[k0 v0] r IH]; simpl.
  - tauto.
  - destruct (String.eqb_spec k0 k) as [->|Hne].
    + split; [discriminate | intros H; exfalso; apply H; now left].
    + rewrite IH. split.
      * intros H [E|E]; [congruence | tauto].
      * intros H E. apply H. now right.
Qed.

Lemma mem_keys k d :
  mem k d = true <-> In k (keys d).
Proof.
  unfold mem. destruct (get k d) eqn:E.
  - split; [intros _|reflexivity].
    apply get_Some_In in E. apply (in_map fst) in E. exact E.
  - split; [discriminate|]. intros H. apply get_None_keys in E. tauto.
Qed.

Lemma In_wf_get k v d :
  wf d -> In (k, v) d -> get k d = Some v.
Proof.
  unfold wf, keys.
  induction d as [|[k0 v0] r IH]; simpl; [tauto|].
  intros Hnd [E|Hin].
  - inversion E; subst. now rewrite String.eqb_refl.
  - inversion Hnd as [|? ? Hnotin Hnd']; subst.
    destruct (String.eqb_spec k0 k) as [->|Hne].
    + exfalso. apply Hnotin. apply (in_map fst) in Hin. exact Hin.
    + now apply IH.
Qed.

Lemma keys_set k v d :
  keys (set k v d) = if mem k d then keys d else keys d ++ [k].
Proof.
  unfold mem, keys.
  induction d as [|[k0 v0] r IH]; simpl; [reflexivity|].
  destruct (String.eqb_spec k0 k) as [->|Hne]; simpl; [reflexivity|].
  rewrite IH. destruct (get k r); reflexivity.
Qed.

Lemma wf_set k v d : wf d -> wf (set k v d).
Proof.
  unfold wf. rewrite keys_set. destruct (mem k d) eqn:E; [tauto|].
  intros H. apply NoDup_app; [exact H | repeat constructor; simpl; tauto |].
  intros x Hx [<-|[]].
  apply mem_keys in Hx. congruence.
Qed.

Lemma wf_pop k d : wf d -> wf (pop k d).
Proof.
  unfold wf, keys, pop.
  induction d as [|[k0 v0] r IH]; simpl; [tauto|].
  intros Hnd. inversion Hnd as [|? ? Hnotin Hnd']; subst.
  destruct (String.eqb k0 k); simpl; [now apply IH|].
  constructor; [|now apply IH].
  intros Hin. apply Hnotin. apply in_map_iff in Hin as [[k1 v1] [E Hin]].
  apply filter_In in Hin as [Hin _]. simpl in E; subst.
  apply (in_map fst) in Hin. exact Hin.
Qed.

Lemma set_same k v d : get k d = Some v -> set k v d = d.
Proof.
  induction d as [|[k0 v0] r IH]; simpl; [discriminate|].
  destruct (String.eqb_spec k0 k) as [->|Hne].
  - now intros [= ->].
  - intros H. now rewrite IH.
Qed.

Lemma In_keys_get k d : In k (keys d) -> exists v, get k d = Some v.
Proof.
  intros H. destruct (get k d) eqn:E; [eauto|].
  apply get_None_keys in E. tauto.
Qed.

Lemma mem_set k k' v d : mem k' d = true -> mem k' (set k v d) = true.
Proof.
  unfold mem. rewrite get_set.
  destruct (String.eqb k k'); [reflexivity | tauto].
Qed.

End Facts.

End DictFacts.

(** ** Delta engine and patch applier *)

Section DeltaFacts.
Context {value : Type}.
Implicit Types (config patched base : Dict.dict value) (d : delta value).

Import Dict DictFacts.

Lemma fold_set_get {A : Type} (kf : A -> string) (vf : A -> value)
  (l : list A) (r : Dict.dict value) (k : string) :
  get k (fold_left (fun r a => set (kf a) (vf a) r) l r) =
  match last_binding kf vf k l with
  | Some v => Some v
  | None => get k r
  end.
Proof.
  revert r. induction l as [|a l IH]; intros r; simpl; [reflexivity|].
  rewrite IH. destruct (last_binding kf vf k l); [reflexivity|].
  rewrite get_set. now destruct (String.eqb (kf a) k).
Qed.

Lemma fold_pop_get (ks : list string) (r : Dict.dict value) (k : string) :
  get k (fold_left (fun r key => pop key r) ks r) =
  if existsb (String.eqb k) ks then None else get k r.
Proof.
  revert r. induction ks as [|k0 ks IH]; intros r; simpl; [reflexivity|].
  rewrite IH, get_pop. rewrite (String.eqb_sym k k0).
  destruct (String.eqb k0 k); simpl; [|reflexivity].
  now destruct (existsb (String.eqb k) ks).
Qed.

Lemma last_binding_Some {A : Type} (kf : A -> string) (vf : A -> value)
  (k : string) (l : list A) (v : value) :
  last_binding kf vf k l = Some v -> exists a, In a l /\ kf a = k /\ vf a = v.
Proof.
  induction l as [|a l IH]; simpl; [discriminate|].
  destruct (last_binding kf vf k l) as [w|].
  - intros [= ->]. destruct (IH eq_refl) as (a' & Hin & Hk & Hv). eauto.
  - destruct (String.eqb_spec (kf a) k) as [E|]; [|discriminate].
    intros [= <-]. eauto.
Qed.

Lemma last_binding_None {A : Type} (kf : A -> string) (vf : A -> value)
  (k : string) (l : list A) :
  last_binding kf vf k l = None <-> (forall a, In a l -> kf a <> k).
Proof.
  induction l as [|a l IH]; simpl.
  - split; [intros _ a [] | reflexivity].
  - destruct (last_binding kf vf k l) as [w|].
    + split; [discriminate|]. intros H.
      assert (Some w = None) as E by (apply IH; intros; apply H; tauto).
      discriminate.
    + destruct (String.eqb_spec (kf a) k) as [E|Hne].
      * split; [discriminate|]. intros H. exfalso. now apply (H a); [left|].
      * split; [|reflexivity]. intros _ a' [<-|Hin]; [exact Hne|].
        now apply IH.
Qed.

(** *** What the three loops of [generate_delta_json] collect *)

Lemma In_delta_additions config patched (a : addition value) :
  In a (delta_additions config patched) <->
  In (add_key a, add_value a) patched /\ mem (add_key a) config = false.
Proof.
  unfold delta_additions. rewrite in_flat_map. split.
  - intros ([k v] & Hin & Ha). simpl in Ha.
    destruct (mem k config) eqn:E; [destruct Ha|].
    destruct Ha as [<-|[]]. simpl. auto.
  - intros [Hin Hm]. exists (add_key a, add_value a). split; [exact Hin|].
    simpl. rewrite Hm. left. now destruct a.
Qed.

Lemma In_delta_deletions config patched (k : string) :
  In k (delta_deletions config patched) <->
  In k (keys config) /\ mem k patched = false.
Proof.
  unfold delta_deletions. rewrite in_flat_map. split.
  - intros (k' & Hin & Hk). destruct (mem k' patched) eqn:E; [destruct Hk|].
    destruct Hk as [<-|[]]. auto.
  - intros [Hin Hm]. exists k. split; [exact Hin|]. rewrite Hm. now left.
Qed.

Lemma In_delta_updates (py_eqb : value -> value -> bool) config patched
  (u : update value) :
  In u (delta_updates py_eqb config patched) <->
  get (upd_key u) config = Some (upd_from u) /\
  get (upd_key u) patched = Some (upd_to u) /\
  py_eqb (upd_from u) (upd_to u) = false.
Proof.
  unfold delta_updates. rewrite in_flat_map. split.
  - intros (k & Hin & Hu).
    destruct (get k patched) as [to|] eqn:Ep; [|destruct Hu].
    destruct (get k config) as [from|] eqn:Ec; [|destruct Hu].
    destruct (py_eqb from to) eqn:E; [destruct Hu|].
    destruct Hu as [<-|[]]. simpl. auto.
  - intros (Hc & Hp & Hne). exists (upd_key u). split.
    + apply mem_keys. unfold mem. now rewrite Hc.
    + rewrite Hp, Hc, Hne. left. now destruct u.
Qed.

(** *** Lookup in the patched result *)

Lemma patched_get base d (k : string) :
  get k (generate_res_patched_config base d) =
  match last_binding add_key add_value k (additions d) with
  | Some v => Some v
  | None =>
      match last_binding upd_key upd_to k (updates d) with
      | Some v => Some v
      | None => if existsb (String.eqb k) (deletions d) then None
                else get k base
      end
  end.
Proof.
  unfold generate_res_patched_config.
  rewrite (fold_set_get add_key add_value).
  destruct (last_binding add_key add_value k (additions d)); [reflexivity|].
  rewrite (fold_set_get upd_key upd_to).
  destruct (last_binding upd_key upd_to k (updates d)); [reflexivity|].
  apply fold_pop_get.
Qed.

Lemma existsb_deletions config patched (k : string) :
  existsb (String.eqb k) (delta_deletions config patched) =
  mem k config && negb (mem k patched).
Proof.
  destruct (existsb (String.eqb k) (delta_deletions config patched)) eqn:E.
  - apply existsb_exists in E as (k' & Hin & Hk).
    apply String.eqb_eq in Hk. subst k'.
    apply In_delta_deletions in Hin as [Hin Hm].
    apply mem_keys in Hin. now rewrite Hin, Hm.
  - destruct (mem k config) eqn:Ec; [|reflexivity].
    destruct (mem k patched) eqn:Ep; [reflexivity|]. simpl.
    rewrite <- E. apply existsb_exists. exists k. split.
    + apply In_delta_deletions. split; [now apply mem_keys | exact Ep].
    + apply String.eqb_refl.
Qed.

Lemma last_addition config patched (k : string) :
  wf patched ->
  last_binding add_key add_value k (delta_additions config patched) =
  if mem k config then None else get k patched.
Proof.
  intros Hwf.
  destruct (last_binding add_key add_value k (delta_additions config patched))
    as [v|] eqn:E.
  - apply last_binding_Some in E as (a & Hin & Hk & Hv). subst.
    apply In_delta_additions in Hin as [Hin Hm]. rewrite Hm.
    symmetry. now apply In_wf_get.
  - destruct (mem k config) eqn:Ec; [reflexivity|].
    destruct (get k patched) as [v|] eqn:Ep; [|reflexivity].
    exfalso. rewrite last_binding_None in E.
    apply (E (mk_addition k v)); [|reflexivity].
    apply In_delta_additions. simpl. split; [now apply get_Some_In | exact Ec].
Qed.

Lemma last_update (py_eqb : value -> value -> bool) config patched
  (k : string) :
  last_binding upd_key upd_to k (delta_updates py_eqb config patched) =
  match get k config, get k patched with
  | Some from, Some to => if py_eqb from to then None else Some to
  | _, _ => None
  end.
Proof.
  destruct (last_binding upd_key upd_to k (delta_updates py_eqb config patched))
    as [v|] eqn:E.
  - apply last_binding_Some in E as (u & Hin & Hk & Hv). subst.
    apply In_delta_updates in Hin as (Hc & Hp & Hne).
    now rewrite Hc, Hp, Hne.
  - destruct (get k config) as [from|] eqn:Ec; [|reflexivity].
    destruct (get k patched) as [to|] eqn:Ep; [|reflexivity].
    destruct (py_eqb from to) eqn:Ene; [reflexivity|].
    exfalso. rewrite last_binding_None in E.
    apply (E (mk_update k from to)); [|reflexivity].
    apply In_delta_updates. simpl. auto.
Qed.

Lemma fold_set_same {A : Type} (kf : A -> string) (vf : A -> value)
  (l : list A) (r : Dict.dict value) :
  (forall a, In a l -> get (kf a) r = Some (vf a)) ->
  fold_left (fun r a => set (kf a) (vf a) r) l r = r.
Proof.
  induction l as [|a l IH]; simpl; [reflexivity|]. intros H.
  rewrite set_same by (apply H; now left).
  apply IH. intros a' Hin. apply H. now right.
Qed.

End DeltaFacts.

Section DeltaClaims.
Context {value : Type} (py_eqb : value -> value -> bool).

Import Dict DictFacts.

Lemma wf_patched (base : Dict.dict value) (d : delta value) :
  wf base -> wf (generate_res_patched_config base d).
Proof.
  unfold generate_res_patched_config. intros H.
  assert (Hset : forall (A : Type) (kf : A -> string) (vf : A -> value) l r,
             wf r -> wf (fold_left (fun r a => set (kf a) (vf a) r) l r)).
  { intros A kf vf l. induction l as [|a l IH]; intros r Hr; simpl;
      [exact Hr | apply IH, wf_set, Hr]. }
  apply (Hset _ add_key add_value), (Hset _ upd_key upd_to).
  generalize dependent base. induction (deletions d) as [|k ks IH];
    intros base H; simpl; [exact H | apply IH, wf_pop, H].
Qed.

(** C4.  The patch applier copies [base], pops every key of [deletions]
    (popping an absent key changes nothing and raises nothing), then assigns
    [to] for every update without looking at [from], then assigns [value] for
    every addition.  Hence a key bound by some addition has the value of the
    last such addition; otherwise a key bound by some update has the [to] of
    the last such update; otherwise a deleted key is absent; otherwise the
    key is as in [base]. *)
Theorem apply_patch_order (base : Dict.dict value) (d : delta value) :
  generate_res_patched_config base d =
    fold_left (fun r a => set (add_key a) (add_value a) r) (additions d)
      (fold_left (fun r u => set (upd_key u) (upd_to u) r) (updates d)
         (fold_left (fun r key => pop key r) (deletions d) base)) /\
  (forall (k : string) (r : Dict.dict value), mem k r = false -> pop k r = r) /\
  (forall k : string,
     get k (generate_res_patched_config base d) =
     match last_binding add_key add_value k (additions d) with
     | Some v => Some v
     | None =>
         match last_binding upd_key upd_to k (updates d) with
         | Some v => Some v
         | None => if existsb (String.eqb k) (deletions d) then None
                   else get k base
         end
     end).
Proof.
  split; [reflexivity|]. split; [|apply patched_get].
  intros k r Hm. unfold pop.
  induction r as [|[k0 v0] r IH]; simpl; [reflexivity|].
  unfold mem in Hm. simpl in Hm.
  destruct (String.eqb k0 k); [discriminate|]. simpl. f_equal. now apply IH.
Qed.

(** C3 (as the code has it).  [additions] holds exactly the entries of
    [patched] whose key is absent from [base], [deletions] exactly the keys
    of [base] absent from [patched], [updates] exactly the keys present in
    both whose values are unequal by Python's [!=], with [from] the base
    value and [to] the patched value; a key present in both with values
    equal by Python's [==] is in no category. *)
Theorem delta_classification (base patched : Dict.dict value) :
  let d := generate_delta_json py_eqb base patched in
  (forall a, In a (additions d) <->
     In (add_key a, add_value a) patched /\ mem (add_key a) base = false) /\
  (forall k, In k (deletions d) <->
     In k (keys base) /\ mem k patched = false) /\
  (forall u, In u (updates d) <->
     get (upd_key u) base = Some (upd_from u) /\
     get (upd_key u) patched = Some (upd_to u) /\
     py_eqb (upd_from u) (upd_to u) = false) /\
  (forall k vb vp,
     get k base = Some vb -> get k patched = Some vp ->
     py_eqb vb vp = true ->
     (forall a, In a (additions d) -> add_key a <> k) /\
     ~ In k (deletions d) /\
     (forall u, In u (updates d) -> upd_key u <> k)).
Proof.
  simpl. split; [apply In_delta_additions|].
  split; [apply In_delta_deletions|].
  split; [apply In_delta_updates|].
  intros k vb vp Hb Hp Heq. repeat split.
  - intros a Ha E. subst k. apply In_delta_additions in Ha as [_ Hm].
    unfold mem in Hm. now rewrite Hb in Hm.
  - intros Hk. apply In_delta_deletions in Hk as [_ Hm].
    unfold mem in Hm. now rewrite Hp in Hm.
  - intros u Hu E. subst k. apply In_delta_updates in Hu as (Hc & Hq & Hne).
    congruence.
Qed.

(** C1 (as the code has it).  Applying to [A] the delta computed from [A]
    and [B] gives a map with exactly the keys of [B]; a key of [B] that [A]
    lacks, or whose values in [A] and [B] are unequal by Python's [==], has
    the value of [B]; a key whose values in [A] and [B] are equal by
    Python's [==] keeps the value of [A].  Applying to [A] the delta
    computed from [A] and [A] gives [A] itself, entry for entry. *)
Theorem patch_of_delta (A B : Dict.dict value) :
  wf B ->
  let R := generate_res_patched_config A (generate_delta_json py_eqb A B) in
  (forall k, mem k R = mem k B) /\
  (forall k,
     get k R =
     match get k B with
     | None => None
     | Some vb =>
         match get k A with
         | None => Some vb
         | Some va => if py_eqb va vb then Some va else Some vb
         end
     end) /\
  (wf A -> wf R) /\
  generate_res_patched_config A (generate_delta_json py_eqb A A) = A.
Proof.
  intros HB R.
  assert (HR : forall k, get k R =
            match get k B with
            | None => None
            | Some vb =>
                match get k A with
                | None => Some vb
                | Some va => if py_eqb va vb then Some va else Some vb
                end
            end).
  { intros k. unfold R. rewrite patched_get. simpl.
    rewrite last_addition by exact HB. rewrite last_update.
    rewrite existsb_deletions. unfold mem.
    destruct (get k A) as [va|], (get k B) as [vb|]; simpl; try reflexivity.
    now destruct (py_eqb va vb). }
  split; [|split; [|split]].
  - intros k. unfold mem at 1 2. rewrite HR.
    destruct (get k B) as [vb|]; [|reflexivity].
    destruct (get k A) as [va|]; [|reflexivity].
    now destruct (py_eqb va vb).
  - exact HR.
  - apply wf_patched.
  - unfold generate_res_patched_config. simpl.
    assert (delta_additions A A = []) as ->.
    { destruct (delta_additions A A) as [|a l] eqn:E; [reflexivity|].
      assert (In a (delta_additions A A)) as Ha by (rewrite E; now left).
      apply In_delta_additions in Ha as [Hin Hm].
      apply (in_map fst) in Hin. apply mem_keys in Hin. simpl in Hin.
      congruence. }
    assert (delta_deletions A A = []) as ->.
    { destruct (delta_deletions A A) as [|a l] eqn:E; [reflexivity|].
      assert (In a (delta_deletions A A)) as Ha by (rewrite E; now left).
      apply In_delta_deletions in Ha as [Hin Hm].
      apply mem_keys in Hin. congruence. }
    simpl. apply fold_set_same. intros u Hu.
    apply In_delta_updates in Hu as (Hc & Hp & _). exact Hp.
Qed.

End DeltaClaims.

(** *** The example of the specification, and values Python identifies *)

Example example_delta :
  generate_delta_json json_py_eqb example_base example_patched =
  mk_delta [mk_addition "c" (JInt 4)] ["a"] [mk_update "b" (JInt 2) (JInt 3)].
Proof. reflexivity. Qed.

Example example_patch :
  generate_res_patched_config example_base
    (generate_delta_json json_py_eqb example_base example_patched) =
  example_patched.
Proof. reflexivity. Qed.

(** Python: [1 == True], [0 == False], [[1] == [True]], [2 != True],
    ["1" != 1], and dicts are equal whatever the order of their keys. *)
Example py_eq_bool_int :
  json_py_eqb (JInt 1) (JBool true) = true /\
  json_py_eqb (JBool false) (JInt 0) = true /\
  json_py_eqb (JArr [JInt 1]) (JArr [JBool true]) = true /\
  json_py_eqb (JInt 2) (JBool true) = false /\
  json_py_eqb (JStr "1") (JInt 1) = false /\
  json_py_eqb (JObj [("a", JInt 1); ("b", JNull)])
              (JObj [("b", JNull); ("a", JInt 1)]) = true.
Proof. repeat split. Qed.

Lemma patch_of_delta_witness :
  Dict.get "a" (generate_res_patched_config one_base
                  (generate_delta_json json_py_eqb one_base one_patched)) =
  Some (JInt 1) /\
  Dict.get "b" (generate_res_patched_config example_base
                  (generate_delta_json json_py_eqb example_base
                     example_patched)) =
  Some (JInt 3).
Proof.
  assert (Hone : Dict.wf one_patched).
  { unfold Dict.wf. simpl. repeat constructor; simpl; intuition discriminate. }
  assert (Hwf : Dict.wf example_patched).
  { unfold Dict.wf. simpl. repeat constructor; simpl; intuition discriminate. }
  split.
  - exact (proj1 (proj2 (patch_of_delta json_py_eqb one_base one_patched
                           Hone)) "a").
  - exact (proj1 (proj2 (patch_of_delta json_py_eqb example_base
                           example_patched Hwf)) "b").
Defined.

(** C1, counterexample: the delta from [{"a": 1}] to [{"a": true}] is empty,
    so the patched map still binds ["a"] to the number [1], which is not the
    value [true] of the target. *)
Lemma patch_of_delta_not_identical :
  Dict.wf one_patched /\
  Dict.get "a" one_patched = Some (JBool true) /\
  Dict.get "a" (generate_res_patched_config one_base
                  (generate_delta_json json_py_eqb one_base one_patched))
    = Some (JInt 1) /\
  JInt 1 <> JBool true.
Proof.
  split; [|split; [reflexivity | split; [reflexivity | discriminate]]].
  unfold Dict.wf. simpl. repeat constructor. simpl. tauto.
Qed.

(** C3, counterexample: ["a"] is in both maps with the structurally
    different values [1] and [true], and no update is recorded. *)
Lemma delta_misses_bool_int :
  Dict.get "a" one_base = Some (JInt 1) /\
  Dict.get "a" one_patched = Some (JBool true) /\
  JInt 1 <> JBool true /\
  updates (generate_delta_json json_py_eqb one_base one_patched) = [].
Proof.
  split; [reflexivity | split; [reflexivity | split; [discriminate | reflexivity]]].
Qed.

(** ** Loops that may raise *)

Lemma foldM_extend {A B : Type} (g : A -> outcome (list B)) (l : list A)
  (xml : list B) :
  foldM (fun xml a => sub <- g a ;; Ok (xml ++ sub)) l xml =
  (subs <- mapM g l ;; Ok (xml ++ List.concat subs)).
Proof.
  revert xml. induction l as [|a l IH]; intros xml; simpl.
  - now rewrite app_nil_r.
  - destruct (g a) as [sub|]; simpl; try reflexivity.
    rewrite IH. destruct (mapM g l); simpl; try reflexivity.
    now rewrite app_assoc.
Qed.

Lemma mapM_Ok {A B : Type} (g : A -> outcome B) (l : list A) (bs : list B) :
  mapM g l = Ok bs <-> Forall2 (fun a b => g a = Ok b) l bs.
Proof.
  revert bs. induction l as [|a l IH]; intros bs; simpl.
  - split.
    + intros [= <-]. constructor.
    + intros H. inversion H. reflexivity.
  - split.
    + destruct (g a) as [b|] eqn:E; simpl; try discriminate.
      destruct (mapM g l) as [bs'|]; simpl; try discriminate.
      intros [= <-]. constructor; [exact E | now apply IH].
    + intros H. inversion H as [|? b ? bs' Hb Hbs]; subst.
      rewrite Hb. simpl. apply IH in Hbs. now rewrite Hbs.
Qed.

Lemma mapM_Raise {A B : Type} (g : A -> outcome B) (l : list A) (e : exn) :
  mapM g l = Raise e -> exists a, In a l /\ g a = Raise e.
Proof.
  induction l as [|a l IH]; simpl; [discriminate|].
  destruct (g a) as [b|] eqn:E; simpl; try discriminate.
  - destruct (mapM g l) as [bs|]; simpl; try discriminate.
    intros [= <-]. destruct (IH eq_refl) as (a' & Hin & Ha'). eauto.
  - intros [= <-]. eauto.
Qed.

(** ** The model graph built by [parse_xml] *)

Section GraphFacts.
Import Dict DictFacts.

Lemma In_set {V : Type} (k k' : string) (v v' : V) (d : Dict.dict V) :
  In (k', v') (set k v d) -> (k' = k /\ v' = v) \/ In (k', v') d.
Proof.
  induction d as [|[k0 v0] r IH]; simpl.
  - intros [[= -> ->]|[]]. now left.
  - destruct (String.eqb_spec k0 k) as [->|Hne]; simpl.
    + intros [[= -> ->]|H]; [now left | right; now right].
    + intros [H|H]; [right; now left|].
      destruct (IH H) as [?|?]; [now left | right; now right].
Qed.

Lemma parse_classes_no_children (class_elems : list class_elem)
  (classes : classes_t) :
  (forall c d, In (c, d) classes -> children d = []) ->
  forall c d, In (c, d) (fold_left parse_class class_elems classes) ->
              children d = [].
Proof.
  revert classes. induction class_elems as [|ce l IH]; intros classes H;
    simpl; [exact H|].
  apply IH. intros c d Hin. unfold parse_class in Hin.
  apply In_set in Hin as [[_ ->]|Hin]; [reflexivity | eauto].
Qed.

Lemma append_child_closed (tgt : string) (ch : child) (classes : classes_t) :
  closed classes -> mem (child_name ch) classes = true ->
  closed (append_child tgt ch classes).
Proof.
  intros Hc Hm. unfold append_child.
  destruct (get tgt classes) as [d0|] eqn:E; [|exact Hc].
  intros c d ch' Hin Hch. apply mem_set.
  apply In_set in Hin as [[-> ->]|Hin].
  - simpl in Hch. apply in_app_or in Hch as [Hch|[<-|[]]]; [|exact Hm].
    apply get_Some_In in E. eauto.
  - eauto.
Qed.

Lemma parse_aggregations_closed (agg_elems : list aggregation)
  (st : classes_t * list aggregation) :
  closed (fst st) -> closed (fst (fold_left parse_aggregation agg_elems st)).
Proof.
  revert st. induction agg_elems as [|agg l IH]; intros [classes aggs] H;
    simpl; [exact H|].
  apply IH. simpl in H.
  destruct (mem (source agg) classes && mem (target agg) classes) eqn:E;
    simpl; [|exact H].
  apply andb_prop in E as [Hs _]. now apply append_child_closed.
Qed.

Lemma parse_xml_closed (class_elems : list class_elem)
  (agg_elems : list aggregation) :
  closed (fst (parse_xml class_elems agg_elems)).
Proof.
  unfold parse_xml. apply parse_aggregations_closed. simpl.
  intros c d ch Hin Hch.
  rewrite (parse_classes_no_children class_elems [] (fun _ _ H => match H with end) c d Hin)
    in Hch.
  destruct Hch.
Qed.

(** *** [build_xml_element], one level unfolded *)

Lemma build_xml_element_S (depth : nat) (classes : classes_t)
  (class_name : string) (indent : nat) :
  build_xml_element (S depth) classes class_name indent =
  match get class_name classes with
  | None => Raise KeyError
  | Some class_data =>
      subs <- mapM (fun ch => build_xml_element depth classes (child_name ch)
                                (indent + 1))
                   (children class_data) ;;
      Ok (open_tag indent class_name ::
          map (attr_line (indent + 1)) (attributes class_data) ++
          List.concat subs ++ [close_tag indent class_name])
  end.
Proof.
  simpl. destruct (get class_name classes) as [d|]; [|reflexivity].
  rewrite (foldM_extend
             (fun ch => build_xml_element depth classes (child_name ch) (indent + 1))).
  destruct (mapM _ (children d)); simpl; try reflexivity.
  now rewrite <- app_assoc.
Qed.

Lemma build_never_KeyError (classes : classes_t) :
  closed classes ->
  forall depth class_name indent,
    mem class_name classes = true ->
    build_xml_element depth classes class_name indent <> Raise KeyError.
Proof.
  intros Hc. induction depth as [|depth IH]; intros c i Hm;
    [discriminate|].
  rewrite build_xml_element_S. unfold mem in Hm.
  destruct (get c classes) as [d|] eqn:E; [|discriminate].
  destruct (mapM _ (children d)) as [subs|e'] eqn:Es; simpl; try discriminate.
  intros [= ->]. apply mapM_Raise in Es as (ch & Hin & Hch).
  exact (IH _ _ (Hc c d ch (get_Some_In _ _ _ E) Hin) Hch).
Qed.

Lemma first_root_In (classes : classes_t) (r : string) :
  first_root classes = Ok r ->
  exists d, In (r, d) classes /\ isRoot d = true.
Proof.
  induction classes as [|[c d] l IH]; simpl; [discriminate|].
  destruct (isRoot d) eqn:E.
  - intros [= ->]. exists d. auto.
  - intros H. destruct (IH H) as (d' & Hin & Hr). eauto.
Qed.

Lemma first_root_mem (classes : classes_t) (r : string) :
  first_root classes = Ok r -> mem r classes = true.
Proof.
  intros H. apply first_root_In in H as (d & Hin & _).
  apply mem_keys. apply (in_map fst) in Hin. exact Hin.
Qed.

Lemma first_root_outcome (classes : classes_t) :
  first_root classes = Raise StopIteration \/ exists r, first_root classes = Ok r.
Proof.
  induction classes as [|[c d] l IH]; simpl; [now left|].
  destruct (isRoot d); [right; eauto | exact IH].
Qed.

End GraphFacts.

Section GraphClaims.
Import Dict DictFacts.

Lemma first_root_none (classes : classes_t) :
  (forall c d, In (c, d) classes -> isRoot d = false) ->
  first_root classes = Raise StopIteration.
Proof.
  induction classes as [|[c d] l IH]; simpl; [reflexivity|]. intros H.
  rewrite (H c d) by now left. apply IH. intros c' d' Hin. apply (H c' d').
  now right.
Qed.

Lemma first_root_app (l1 l2 : classes_t) (c : string) (d : class_data) :
  (forall c' d', In (c', d') l1 -> isRoot d' = false) ->
  isRoot d = true ->
  first_root (l1 ++ (c, d) :: l2) = Ok c.
Proof.
  intros H Hd. induction l1 as [|[c' d'] l1 IH]; simpl.
  - now rewrite Hd.
  - rewrite (H c' d') by now left. apply IH. intros c'' d'' Hin.
    apply (H c'' d''). now right.
Qed.

(** C9.  With no class marked as root, [generate_config_xml] raises
    ([StopIteration], out of [next]) and produces no document, at any
    depth.  Otherwise the first class in mapping order with [isRoot] set is
    the one the tree is built from. *)
Theorem root_selection (classes : classes_t) (depth : nat) :
  ((forall c d, In (c, d) classes -> isRoot d = false) ->
   generate_config_xml depth classes = Raise StopIteration) /\
  (forall l1 c d l2,
     classes = l1 ++ (c, d) :: l2 ->
     (forall c' d', In (c', d') l1 -> isRoot d' = false) ->
     isRoot d = true ->
     first_root classes = Ok c /\
     generate_config_xml depth classes =
       (body <- build_xml_element depth classes c 0 ;;
        Ok (str_join newline (xml_header :: body)))).
Proof.
  split.
  - intros H. unfold generate_config_xml. now rewrite first_root_none.
  - intros l1 c d l2 -> H Hd. unfold generate_config_xml.
    now rewrite (first_root_app l1 l2 c d H Hd).
Qed.

(** C10.  In the mapping returned by [parse_xml], every entry of every
    [children] list names a key of the mapping; so [build_xml_element],
    started at any key, and [generate_config_xml] never raise [KeyError]. *)
Theorem parse_xml_children_declared (class_elems : list class_elem)
  (agg_elems : list aggregation) :
  let classes := fst (parse_xml class_elems agg_elems) in
  (forall c d ch,
     In (c, d) classes -> In ch (children d) ->
     In (child_name ch) (keys classes)) /\
  (forall depth class_name indent,
     In class_name (keys classes) ->
     build_xml_element depth classes class_name indent <> Raise KeyError) /\
  (forall depth, generate_config_xml depth classes <> Raise KeyError).
Proof.
  intros classes.
  assert (Hc : closed classes) by apply parse_xml_closed.
  split; [|split].
  - intros c d ch Hin Hch. apply mem_keys. eauto.
  - intros depth c i Hin. apply build_never_KeyError; [exact Hc|].
    now apply mem_keys.
  - intros depth. unfold generate_config_xml.
    destruct (first_root_outcome classes) as [E|[r E]]; rewrite E; simpl;
      [discriminate|].
    destruct (build_xml_element depth classes r 0) as [l|e] eqn:Eb; simpl;
      try discriminate.
    intros [= ->].
    apply (build_never_KeyError classes Hc depth r 0); [|exact Eb].
    now apply first_root_mem.
Qed.

End GraphClaims.

(** ** Containment: cycles, termination and the materialized tree *)

Lemma Forall2_In_l {A B : Type} (P : A -> B -> Prop) (l : list A)
  (l' : list B) (a : A) :
  Forall2 P l l' -> In a l -> exists b, In b l' /\ P a b.
Proof.
  induction 1 as [|x y l l' Hxy _ IH]; simpl; [tauto|].
  intros [<-|Hin]; [eauto|]. destruct (IH Hin) as (b & Hb & Hab). eauto.
Qed.

Lemma step_rt_trans {A : Type} (R : relation A) (x y z : A) :
  R x y -> clos_refl_trans A R y z -> clos_trans A R x z.
Proof.
  intros Hxy Hyz. apply clos_rt_rtn1 in Hyz.
  induction Hyz as [|z z' Hzz' _ IH]; [now apply t_step|].
  eapply t_trans; [exact IH | now apply t_step].
Qed.

(** *** The program's lines are the lines of the specification *)

Lemma indent_str_spaces (i : nat) : indent_str i = spaces (2 * i).
Proof.
  unfold indent_str. induction i as [|i IH]; [reflexivity|].
  replace (2 * S i) with (S (S (2 * i))) by lia.
  cbn [str_repeat spaces]. now rewrite IH.
Qed.

Lemma open_tag_line (i : nat) (c : string) :
  open_tag i c = render_line (i, OpenTag c).
Proof. unfold open_tag, render_line. now rewrite indent_str_spaces. Qed.

Lemma close_tag_line (i : nat) (c : string) :
  close_tag i c = render_line (i, CloseTag c).
Proof. unfold close_tag, render_line. now rewrite indent_str_spaces. Qed.

Lemma attr_line_line (i : nat) (a : attribute) :
  attr_line (i + 1) a = render_line (S i, AttrLine (attr_name a) (attr_type a)).
Proof.
  unfold attr_line, render_line. now rewrite indent_str_spaces, Nat.add_1_r.
Qed.

Lemma xml_header_declaration : xml_header = xml_declaration.
Proof. reflexivity. Qed.

Lemma str_join_lines (ls : list string) :
  str_join newline ls = text_of_lines ls.
Proof.
  unfold text_of_lines. change (String (ascii_of_nat 10) "") with newline.
  induction ls as [|x r IH]; [reflexivity|].
  destruct r as [|y r]; [reflexivity|].
  change (x ++ newline ++ str_join newline (y :: r) =
          x ++ newline ++ String.concat newline (y :: r))%string.
  now rewrite IH.
Qed.

Lemma map_flat_map {A B C : Type} (f : B -> C) (g : A -> list B)
  (l : list A) :
  map f (flat_map g l) = flat_map (fun a => map f (g a)) l.
Proof.
  induction l as [|a l IH]; simpl; [reflexivity|].
  now rewrite map_app, IH.
Qed.

Lemma render_tree_node (i : nat) (c : string) (attrs : list attribute)
  (subs : list tree) :
  render_tree i (Node c attrs subs) =
  open_tag i c ::
  map (attr_line (i + 1)) attrs ++
  flat_map (render_tree (i + 1)) subs ++ [close_tag i c].
Proof.
  unfold render_tree. cbn [tree_lines map].
  rewrite !map_app, map_map, map_flat_map. cbn [map].
  rewrite open_tag_line, close_tag_line, Nat.add_1_r. f_equal. f_equal.
  apply map_ext. intros a. now rewrite <- attr_line_line, Nat.add_1_r.
Qed.

Section Containment.
Import Dict DictFacts.
Variable classes : classes_t.

Lemma build_Ok_step (depth : nat) (c c' : string) (indent : nat)
  (l : list string) :
  build_xml_element depth classes c indent = Ok l ->
  step classes c c' ->
  exists depth' l',
    depth = S depth' /\
    build_xml_element depth' classes c' (indent + 1) = Ok l'.
Proof.
  destruct depth as [|depth']; [discriminate|].
  rewrite build_xml_element_S. intros H (d & ch & Hd & Hin & <-).
  rewrite Hd in H.
  destruct (mapM _ (children d)) as [subs|] eqn:E; try discriminate.
  apply mapM_Ok in E.
  destruct (Forall2_In_l _ _ _ ch E Hin) as (l' & _ & Hl').
  eauto.
Qed.

Lemma build_Ok_trans (c c' : string) :
  clos_trans string (step classes) c c' ->
  forall depth indent l,
    build_xml_element depth classes c indent = Ok l ->
    exists depth' indent' l',
      depth' < depth /\
      build_xml_element depth' classes c' indent' = Ok l'.
Proof.
  induction 1 as [c c' Hs | c c1 c' _ IH1 _ IH2]; intros depth indent l H.
  - destruct (build_Ok_step _ _ _ _ _ H Hs) as (depth' & l' & -> & H').
    exists depth', (indent + 1), l'. split; [lia | exact H'].
  - destruct (IH1 _ _ _ H) as (d1 & i1 & l1 & Hlt1 & H1).
    destruct (IH2 _ _ _ H1) as (d2 & i2 & l2 & Hlt2 & H2).
    exists d2, i2, l2. split; [lia | exact H2].
Qed.

Lemma build_Ok_reaches (c c' : string) :
  reaches classes c c' ->
  forall depth indent l,
    build_xml_element depth classes c indent = Ok l ->
    exists depth' indent' l',
      build_xml_element depth' classes c' indent' = Ok l'.
Proof.
  induction 1 as [c c' Hs | c | c c1 c' _ IH1 _ IH2]; intros depth indent l H.
  - destruct (build_Ok_step _ _ _ _ _ H Hs) as (depth' & l' & -> & H').
    eauto.
  - eauto.
  - destruct (IH1 _ _ _ H) as (d1 & i1 & l1 & H1). eauto.
Qed.

(** A class on a cycle is never materialized, whatever the depth. *)
Lemma build_cycle_never_Ok (c : string) :
  on_cycle classes c ->
  forall depth indent l, build_xml_element depth classes c indent <> Ok l.
Proof.
  intros Hc depth. induction depth as [depth IH] using lt_wf_ind.
  intros indent l H.
  destruct (build_Ok_trans c c Hc _ _ _ H) as (d' & i' & l' & Hlt & H').
  exact (IH d' Hlt i' l' H').
Qed.

(** A call refused for lack of depth ends a containment path as long as
    the depth allowed. *)
Lemma build_RecursionError_walk (depth : nat) :
  forall c indent,
    build_xml_element depth classes c indent = Raise RecursionError ->
    exists p, walk classes c p /\ List.length p = S depth.
Proof.
  induction depth as [|depth IH]; intros c indent H.
  - exists [c]. split; [constructor | reflexivity].
  - rewrite build_xml_element_S in H.
    destruct (get c classes) as [d|] eqn:Ed; [|discriminate].
    destruct (mapM _ (children d)) as [subs|e] eqn:E; try discriminate.
    simpl in H. injection H as ->.
    apply mapM_Raise in E as (ch & Hin & Hch).
    destruct (IH _ _ Hch) as (p & Hw & Hlen).
    exists (c :: p). split; [|simpl; now rewrite Hlen].
    apply walk_cons with (c' := child_name ch); [|exact Hw].
    exists d, ch. auto.
Qed.

Lemma walk_incl (c : string) (p : list string) :
  closed classes -> mem c classes = true -> walk classes c p ->
  incl p (keys classes).
Proof.
  intros Hcl Hm Hw. induction Hw as [c | c c' p Hs _ IH].
  - intros x [<-|[]]. now apply mem_keys.
  - intros x [<-|Hx]; [now apply mem_keys|]. apply IH; [|exact Hx].
    destruct Hs as (d & ch & Hd & Hin & <-).
    eapply Hcl; [apply get_Some_In, Hd | exact Hin].
Qed.

Lemma build_raise_kind (depth : nat) :
  forall c indent e,
    build_xml_element depth classes c indent = Raise e ->
    e = KeyError \/ e = RecursionError.
Proof.
  induction depth as [|depth IH]; intros c indent e H.
  - injection H as <-. now right.
  - rewrite build_xml_element_S in H.
    destruct (get c classes) as [d|]; [|injection H as <-; now left].
    destruct (mapM _ (children d)) as [subs|e'] eqn:E; try discriminate.
    simpl in H. injection H as ->.
    apply mapM_Raise in E as (ch & _ & Hch). exact (IH _ _ _ Hch).
Qed.

Lemma walk_reaches (c : string) (p : list string) :
  walk classes c p -> forall x, In x p -> reaches classes c x.
Proof.
  induction 1 as [c | c c' p Hs _ IH]; intros x Hx.
  - destruct Hx as [<-|[]]. apply rt_refl.
  - destruct Hx as [<-|Hx]; [apply rt_refl|].
    eapply rt_trans; [apply rt_step, Hs | now apply IH].
Qed.

Lemma walk_NoDup (c : string) (p : list string) :
  acyclic classes -> walk classes c p -> NoDup p.
Proof.
  intros Ha. induction 1 as [c | c c' p Hs Hw IH].
  - repeat constructor. simpl. tauto.
  - constructor; [|exact IH]. intros Hin. apply (Ha c).
    apply (walk_reaches _ _ Hw) in Hin.
    exact (step_rt_trans _ _ _ _ Hs Hin).
Qed.

Lemma height_subs (ts : list tree) (n : nat) :
  fold_right Nat.max 0 (map height ts) <= n ->
  forall t, In t ts -> height t <= n.
Proof.
  induction ts as [|t0 ts IH]; simpl; [tauto|].
  intros H t [<-|Hin]; [lia | apply IH; [lia | exact Hin]].
Qed.

Lemma height_subs_bound (ts : list tree) (n : nat) :
  (forall t, In t ts -> height t <= n) ->
  fold_right Nat.max 0 (map height ts) <= n.
Proof.
  induction ts as [|t0 ts IH]; simpl; [lia|]. intros H.
  apply Nat.max_lub; [apply H; now left | apply IH; intros; apply H; now right].
Qed.

(** What [build_xml_element] returns is the document of the unfolding. *)
Lemma build_Ok_tree (depth : nat) :
  forall c indent l,
    build_xml_element depth classes c indent = Ok l ->
    exists t, unfolds classes c t /\ height t <= depth /\
              l = render_tree indent t.
Proof.
  induction depth as [|depth IH]; intros c indent l H; [discriminate|].
  rewrite build_xml_element_S in H.
  destruct (get c classes) as [d|] eqn:Ed; [|discriminate].
  destruct (mapM _ (children d)) as [subs|] eqn:E; try discriminate.
  simpl in H. injection H as <-. apply mapM_Ok in E.
  assert (Hts : exists ts,
             Forall2 (fun ch t => unfolds classes (child_name ch) t)
                     (children d) ts /\
             (forall t, In t ts -> height t <= depth) /\
             List.concat subs = flat_map (render_tree (indent + 1)) ts).
  { induction E as [|ch sub chs subs' Hsub _ IHE].
    - exists []. repeat split; [constructor | intros t []].
    - destruct IHE as (ts & Hu & Hh & Hc).
      destruct (IH _ _ _ Hsub) as (t & Ht & Hht & ->).
      exists (t :: ts). split; [now constructor | split].
      + intros t' [<-|Hin]; [exact Hht | now apply Hh].
      + cbn [List.concat flat_map]. now rewrite Hc. }
  destruct Hts as (ts & Hu & Hh & Hc).
  exists (Node c (attributes d) ts). split; [now constructor | split].
  - simpl. apply le_n_S. now apply height_subs_bound.
  - now rewrite render_tree_node, Hc.
Qed.

Lemma unfolds_build (depth : nat) :
  forall c indent t,
    unfolds classes c t -> height t <= depth ->
    build_xml_element depth classes c indent = Ok (render_tree indent t).
Proof.
  induction depth as [|depth IH]; intros c indent t Hu Hh.
  - destruct t. simpl in Hh. lia.
  - inversion Hu as [c0 d ts Hd Hts]; subst. simpl in Hh.
    apply le_S_n in Hh. pose proof (height_subs _ _ Hh) as Hsub.
    rewrite build_xml_element_S, Hd.
    assert (E : mapM (fun ch => build_xml_element depth classes (child_name ch)
                                  (indent + 1)) (children d)
                = Ok (map (render_tree (indent + 1)) ts)).
    { apply mapM_Ok. clear Hd Hu Hh.
      induction Hts as [|ch t chs ts' Ht _ IHt]; simpl; constructor.
      - apply IH; [exact Ht | apply Hsub; now left].
      - apply IHt. intros t' Hin. apply Hsub. now right. }
    rewrite E. cbn [bind]. now rewrite render_tree_node, flat_map_concat_map.
Qed.

Lemma Forall2_In_r {A B : Type} (P : A -> B -> Prop) (l : list A)
  (l' : list B) (b : B) :
  Forall2 P l l' -> In b l' -> exists a, In a l /\ P a b.
Proof.
  induction 1 as [|x y l l' Hxy _ IH]; simpl; [tauto|].
  intros [<-|Hin]; [eauto|]. destruct (IH Hin) as (a & Ha & Hab). eauto.
Qed.

Lemma labels_reaches (n : nat) :
  forall t c, height t <= n -> unfolds classes c t ->
              forall x, In x (labels t) -> reaches classes c x.
Proof.
  induction n as [|n IH]; intros t c Hh Hu x Hx.
  - destruct t. simpl in Hh. lia.
  - inversion Hu as [c0 d ts Hd Hts]; subst. simpl in Hh, Hx.
    apply le_S_n in Hh. destruct Hx as [<-|Hx]; [apply rt_refl|].
    apply in_flat_map in Hx as (t' & Hin & Hx).
    destruct (Forall2_In_r _ _ _ t' Hts Hin) as (ch & Hch & Ht').
    eapply rt_trans.
    + apply rt_step. exists d, ch. eauto.
    + apply (IH t'); [now apply (height_subs ts) | exact Ht' | exact Hx].
Qed.

Lemma reaches_labels (c x : string) :
  reaches classes c x ->
  forall t, unfolds classes c t -> In x (labels t).
Proof.
  intros H. apply clos_rt_rt1n in H.
  induction H as [c | c c1 x Hs _ IH]; intros t Hu;
    inversion Hu as [c0 d ts Hd Hts]; subst; simpl; [now left|].
  right. destruct Hs as (d' & ch & Hd' & Hch & <-).
  rewrite Hd in Hd'. injection Hd' as <-.
  destruct (Forall2_In_l _ _ _ ch Hts Hch) as (t' & Hin & Ht').
  apply in_flat_map. exists t'. split; [exact Hin | now apply IH].
Qed.

(** With no cycle, a depth of one per class is enough. *)
Lemma build_finishes (c : string) (indent depth : nat) :
  closed classes -> acyclic classes -> mem c classes = true ->
  List.length classes <= depth ->
  build_xml_element depth classes c indent <> Raise RecursionError.
Proof.
  intros Hcl Ha Hm Hd H.
  destruct (build_RecursionError_walk _ _ _ H) as (p & Hw & Hlen).
  pose proof (NoDup_incl_length (walk_NoDup _ _ Ha Hw)
                (walk_incl _ _ Hcl Hm Hw)) as Hle.
  unfold keys in Hle. rewrite length_map in Hle. lia.
Qed.

Lemma build_acyclic (c : string) :
  closed classes -> acyclic classes -> mem c classes = true ->
  exists t,
    unfolds classes c t /\
    forall depth indent,
      List.length classes <= depth ->
      build_xml_element depth classes c indent = Ok (render_tree indent t).
Proof.
  intros Hcl Ha Hm.
  destruct (build_xml_element (List.length classes) classes c 0) as [l|e] eqn:E.
  - destruct (build_Ok_tree _ _ _ _ E) as (t & Hu & Hh & _).
    exists t. split; [exact Hu|]. intros depth indent Hd.
    apply unfolds_build; [exact Hu | lia].
  - exfalso. destruct (build_raise_kind _ _ _ _ E) as [->| ->].
    + exact (build_never_KeyError classes Hcl _ _ _ Hm E).
    + exact (build_finishes c 0 _ Hcl Ha Hm (le_n _) E).
Qed.

(** A cycle that the root reaches is never materialized: the walk ends in
    an exception at every depth. *)
Lemma cycle_outcome (r c : string) :
  first_root classes = Ok r -> reaches classes r c -> on_cycle classes c ->
  forall depth,
    (exists e, generate_config_xml depth classes = Raise e /\
               (e = KeyError \/ e = RecursionError)) /\
    (closed classes ->
     generate_config_xml depth classes = Raise RecursionError).
Proof.
  intros Hr Hrc Hc depth.
  assert (Hno : forall l, build_xml_element depth classes r 0 <> Ok l).
  { intros l H.
    destruct (build_Ok_reaches r c Hrc _ _ _ H) as (d' & i' & l' & H').
    exact (build_cycle_never_Ok c Hc _ _ _ H'). }
  unfold generate_config_xml. rewrite Hr. cbn [bind].
  destruct (build_xml_element depth classes r 0) as [l|e] eqn:E; cbn [bind];
    [exfalso; exact (Hno l eq_refl)|].
  pose proof (build_raise_kind _ _ _ _ E) as Hk.
  split; [eauto|]. intros Hcl. destruct Hk as [->| ->]; [|reflexivity].
  exfalso.
  exact (build_never_KeyError classes Hcl _ _ _ (first_root_mem _ _ Hr) E).
Qed.

(** *** The tags of the specification's lines *)

Lemma flat_map_ext_in {A B : Type} (f g : A -> list B) (l : list A) :
  (forall a, In a l -> f a = g a) -> flat_map f l = flat_map g l.
Proof.
  induction l as [|a l IH]; intros H; simpl; [reflexivity|].
  rewrite (H a) by now left.
  rewrite IH by (intros a' Hin; apply H; now right). reflexivity.
Qed.

Lemma flat_map_flat_map {A B C : Type} (f : B -> list C) (g : A -> list B)
  (l : list A) :
  flat_map f (flat_map g l) = flat_map (fun a => flat_map f (g a)) l.
Proof.
  induction l as [|a l IH]; simpl; [reflexivity|].
  now rewrite flat_map_app, IH.
Qed.

Lemma flat_map_nothing {A B C : Type} (f : B -> list C) (g : A -> B)
  (l : list A) :
  (forall a, f (g a) = []) -> flat_map f (map g l) = [].
Proof.
  intros H. induction l as [|a l IH]; simpl; [reflexivity|].
  now rewrite H, IH.
Qed.

Lemma tree_lines_tags (n : nat) :
  forall t level,
    height t <= n ->
    opening_tags (tree_lines level t) = labels t /\
    closing_tags (tree_lines level t) = labels_post t /\
    opening_levels (tree_lines level t) = depths level t.
Proof.
  induction n as [|n IH]; intros [c attrs subs] level Hh;
    [simpl in Hh; lia|].
  simpl in Hh. apply le_S_n in Hh. pose proof (height_subs _ _ Hh) as Hsub.
  unfold opening_tags, closing_tags, opening_levels.
  cbn [tree_lines labels labels_post depths flat_map snd fst].
  rewrite !flat_map_app, !flat_map_flat_map.
  rewrite !(flat_map_nothing _
              (fun a => (S level, AttrLine (attr_name a) (attr_type a))))
    by reflexivity.
  cbn [flat_map snd fst app].
  rewrite (flat_map_ext_in _ labels subs)
    by (intros t Ht; apply (IH t (S level)), Hsub, Ht).
  rewrite (flat_map_ext_in
             (fun a => flat_map _ (tree_lines (S level) a)) labels_post subs)
    by (intros t Ht; apply (IH t (S level)), Hsub, Ht).
  rewrite (flat_map_ext_in
             (fun a => flat_map _ (tree_lines (S level) a))
             (depths (S level)) subs)
    by (intros t Ht; apply (IH t (S level)), Hsub, Ht).
  now rewrite !app_nil_r.
Qed.

End Containment.

(** *** Sample graphs *)

Example sample_document :
  generate_config_xml 2 sample_classes =
  Ok (text_of_lines
        [xml_declaration;
         "<Root>";
         "  <Item>";
         "    <name>string</name>";
         "  </Item>";
         "</Root>"]).
Proof. reflexivity. Qed.

Lemma ranked_acyclic (classes : classes_t) (rank : string -> nat) :
  (forall c c', step classes c c' -> rank c' < rank c) -> acyclic classes.
Proof.
  intros H.
  assert (Ht : forall c c', clos_trans string (step classes) c c' ->
                            rank c' < rank c).
  { induction 1 as [c c' Hs | c c1 c' _ IH1 _ IH2]; [now apply H | lia]. }
  intros c Hc. apply Ht in Hc. lia.
Qed.

Example sample_classes_eq :
  sample_classes =
  [("Root", mk_class true "" [] [mk_child "Item" (Some "1..*")]);
   ("Item", mk_class false "an item" [mk_attribute "name" "string"] [])].
Proof. reflexivity. Qed.

Lemma sample_acyclic : acyclic sample_classes.
Proof.
  apply (ranked_acyclic _ (fun c => if String.eqb c "Root" then 1 else 0)).
  rewrite sample_classes_eq.
  intros c c' (d & ch & Hd & Hin & <-). cbn [Dict.get] in Hd.
  destruct (String.eqb_spec "Root" c) as [<-|_].
  - injection Hd as <-. simpl in Hin. destruct Hin as [<-|[]]. simpl. lia.
  - destruct (String.eqb_spec "Item" c) as [<-|_]; [|discriminate].
    injection Hd as <-. destruct Hin.
Qed.

Section TreeClaims.
Import Dict DictFacts.

(** C6.  For a graph with a root class, every child entry declared and no
    containment cycle, [generate_config_xml] returns at every depth of at
    least the number of classes.  What it returns is the declaration line
    followed by the lines of the specification for the tree [t] that
    unfolds the containment below the first root, one node per containment
    path: the classes at its nodes are exactly those the root reaches; the
    opening tags are the nodes in order, each at the level of its depth;
    the closing tags are the nodes, each after its subtrees; a level is two
    spaces; the attributes of a node are the lines [<name>type</name>] one
    level deeper, between its tags. *)
Theorem materialize_tree (classes : classes_t) (r : string) :
  first_root classes = Ok r -> closed classes -> acyclic classes ->
  exists t,
    unfolds classes r t /\
    (forall c, In c (labels t) <-> reaches classes r c) /\
    opening_tags (tree_lines 0 t) = labels t /\
    closing_tags (tree_lines 0 t) = labels_post t /\
    opening_levels (tree_lines 0 t) = depths 0 t /\
    forall depth,
      List.length classes <= depth ->
      generate_config_xml depth classes =
      Ok (text_of_lines
            (xml_declaration :: map render_line (tree_lines 0 t))).
Proof.
  intros Hr Hcl Ha.
  destruct (build_acyclic classes r Hcl Ha (first_root_mem _ _ Hr))
    as (t & Hu & Hb).
  destruct (tree_lines_tags (height t) t 0 (le_n _)) as (Ho & Hc & Hl).
  exists t. split; [exact Hu|]. split; [|split; [exact Ho|]].
  2: split; [exact Hc|]. 2: split; [exact Hl|].
  - intros c. split.
    + now apply (labels_reaches classes (height t) t r (le_n _) Hu).
    + intros H. now apply (reaches_labels classes r c H).
  - intros depth Hd. unfold generate_config_xml. rewrite Hr. cbn [bind].
    rewrite Hb by exact Hd. cbn [bind].
    now rewrite str_join_lines, xml_header_declaration.
Qed.

Lemma materialize_tree_witness :
  exists t,
    unfolds sample_classes "Root" t /\
    (forall c, In c (labels t) <-> reaches sample_classes "Root" c) /\
    opening_tags (tree_lines 0 t) = labels t /\
    closing_tags (tree_lines 0 t) = labels_post t /\
    opening_levels (tree_lines 0 t) = depths 0 t /\
    forall depth,
      List.length sample_classes <= depth ->
      generate_config_xml depth sample_classes =
      Ok (text_of_lines
            (xml_declaration :: map render_line (tree_lines 0 t))).
Proof.
  apply (materialize_tree sample_classes "Root").
  - reflexivity.
  - apply parse_xml_closed.
  - apply sample_acyclic.
Defined.

(** C2.  Every run of [generate_config_xml] ends with a document or with
    an exception.  When the first root reaches a class that lies on a
    containment cycle, it ends with an exception whatever recursion depth
    the interpreter allows: the recursion is cut at that depth and
    [RecursionError] is raised (or [KeyError], if an undeclared child is met
    first); on a graph whose child entries are all declared the exception is
    [RecursionError]. *)
Theorem cycle_never_materialized (classes : classes_t) :
  (forall depth,
     (exists out, generate_config_xml depth classes = Ok out) \/
     (exists e, generate_config_xml depth classes = Raise e)) /\
  (forall r c,
     first_root classes = Ok r -> reaches classes r c ->
     on_cycle classes c ->
     forall depth,
       (exists e, generate_config_xml depth classes = Raise e /\
                  (e = KeyError \/ e = RecursionError)) /\
       (closed classes ->
        generate_config_xml depth classes = Raise RecursionError)).
Proof.
  split.
  - intros depth. destruct (generate_config_xml depth classes); eauto.
  - intros r c Hr Hrc Hc depth. now apply (cycle_outcome classes r c).
Qed.

Lemma self_loop_cycle : on_cycle self_loop "A".
Proof.
  apply t_step. eexists. exists (mk_child "A" (Some "1")).
  split; [reflexivity | split; [now left | reflexivity]].
Qed.

Lemma cycle_never_materialized_witness :
  generate_config_xml 1000 self_loop = Raise RecursionError.
Proof.
  apply (proj2 (cycle_never_materialized self_loop) "A" "A").
  - reflexivity.
  - apply rt_refl.
  - exact self_loop_cycle.
  - apply parse_xml_closed.
Defined.

Lemma two_cycle_cycle : on_cycle two_cycle "A".
Proof.
  apply t_trans with (y := "B"); apply t_step.
  - eexists. exists (mk_child "B" (Some "1")).
    split; [reflexivity | split; [now left | reflexivity]].
  - eexists. exists (mk_child "A" (Some "1")).
    split; [reflexivity | split; [now left | reflexivity]].
Qed.

(** [A] (the root) contains [B] and [B] contains [A]: the graph is one
    [parse_xml] builds, and [generate_config_xml] raises [RecursionError]
    at every depth. *)
Example two_cycle_RecursionError :
  first_root two_cycle = Ok "A" /\
  on_cycle two_cycle "A" /\
  (forall depth, generate_config_xml depth two_cycle = Raise RecursionError).
Proof.
  split; [reflexivity | split; [exact two_cycle_cycle|]].
  intros depth.
  apply (cycle_outcome two_cycle "A" "A");
    [reflexivity | apply rt_refl | exact two_cycle_cycle | apply parse_xml_closed].
Qed.

End TreeClaims.

(** ** Multiplicity strings *)

Section StringFacts.
Local Open Scope string_scope.

Lemma prefix_app (sub b : string) : str_prefix sub (sub ++ b) = true.
Proof.
  induction sub as [|c sub IH]; simpl; [reflexivity|].
  now rewrite Ascii.eqb_refl, IH.
Qed.

Lemma prefix_split (sub s : string) :
  str_prefix sub s = true -> exists b, s = sub ++ b.
Proof.
  revert s. induction sub as [|c sub IH]; intros s; simpl.
  - intros _. now exists s.
  - destruct s as [|c' s]; [discriminate|].
    intros H. apply andb_prop in H as [Hc H]. apply Ascii.eqb_eq in Hc as <-.
    destruct (IH _ H) as (b & ->). now exists b.
Qed.

Lemma str_in_app (sub a b : string) : str_in sub (a ++ sub ++ b) = true.
Proof.
  induction a as [|c a IH]; simpl.
  - pose proof (prefix_app sub b) as H.
    destruct (sub ++ b); cbn [str_in]; now rewrite H.
  - rewrite IH. apply orb_true_r.
Qed.

Lemma str_in_split (sub s : string) :
  str_in sub s = true -> exists a b, s = a ++ sub ++ b.
Proof.
  induction s as [|c s IH]; cbn [str_in]; intros H.
  - rewrite orb_false_r in H. destruct (prefix_split _ _ H) as (b & ->).
    now exists "", b.
  - apply orb_prop in H as [H|H].
    + destruct (prefix_split _ _ H) as (b & ->). now exists "", b.
    + destruct (IH H) as (a & b & ->). now exists (String c a), b.
Qed.

Lemma str_in_tail (sub : string) (c : ascii) (s : string) :
  str_in sub (String c s) = false -> str_in sub s = false.
Proof.
  simpl. intros H. now apply orb_false_elim in H as [_ H].
Qed.

Lemma is_dot_spec (c : ascii) : is_dot c = true <-> c = "."%char.
Proof. unfold is_dot. apply Ascii.eqb_eq. Qed.

Lemma prefix_dotdot (c c' : ascii) (r : string) :
  str_prefix ".." (String c (String c' r)) = is_dot c && is_dot c'.
Proof.
  cbn [str_prefix]. unfold is_dot.
  rewrite (Ascii.eqb_sym "." c), (Ascii.eqb_sym "." c').
  now rewrite andb_true_r.
Qed.

(** [split_dotdot] on two leading characters *)
Lemma split_dotdot_cons2 (c c' : ascii) (r : string) :
  split_dotdot (String c (String c' r)) =
  if is_dot c && is_dot c' then "" :: split_dotdot r
  else push_char c (split_dotdot (String c' r)).
Proof. reflexivity. Qed.

Lemma split_dotdot_nonempty (s : string) : split_dotdot s <> [].
Proof.
  destruct s as [|c [|c' r]]; try discriminate.
  rewrite split_dotdot_cons2.
  destruct (is_dot c && is_dot c'); [discriminate|].
  unfold push_char. destruct (split_dotdot (String c' r)); discriminate.
Qed.

Lemma push_char_length (c : ascii) (l : list string) :
  l <> [] -> List.length (push_char c l) = List.length l.
Proof. destruct l; [congruence | reflexivity]. Qed.

Lemma str_join_push (c : ascii) (l : list string) :
  l <> [] -> str_join ".." (push_char c l) = String c (str_join ".." l).
Proof.
  destruct l as [|p [|q r]]; [congruence | reflexivity | reflexivity].
Qed.

(** ['..'.join(s.split('..')) == s] *)
Lemma join_split_dotdot (s : string) : str_join ".." (split_dotdot s) = s.
Proof.
  assert (H : forall s, str_join ".." (split_dotdot s) = s /\
                        forall c, str_join ".." (split_dotdot (String c s))
                                  = String c s).
  { clear s. induction s as [|c' r [IH1 IH2]].
    - split; [reflexivity | intros c; reflexivity].
    - split; [apply IH2|]. intros c. rewrite split_dotdot_cons2.
      destruct (is_dot c && is_dot c') eqn:E.
      + apply andb_prop in E as [Hc Hc'].
        apply is_dot_spec in Hc, Hc'. subst.
        destruct (split_dotdot r) as [|p l] eqn:Er;
          [now apply split_dotdot_nonempty in Er|].
        change (str_join ".." ("" :: p :: l))
          with (".." ++ str_join ".." (p :: l)).
        now rewrite IH1.
      + rewrite str_join_push by apply split_dotdot_nonempty.
        now rewrite IH2. }
  apply H.
Qed.

Lemma split_dotdot_none (s : string) :
  str_in ".." s = false -> split_dotdot s = [s].
Proof.
  assert (H : forall s, (str_in ".." s = false -> split_dotdot s = [s]) /\
                        forall c, str_in ".." (String c s) = false ->
                                  split_dotdot (String c s) = [String c s]).
  { clear s. induction s as [|c' r [IH1 IH2]].
    - split; [reflexivity | intros c _; reflexivity].
    - split; [apply IH2|]. intros c Hc.
      rewrite split_dotdot_cons2.
      pose proof (str_in_tail _ _ _ Hc) as Ht.
      cbn [str_in] in Hc. apply orb_false_elim in Hc as [Hp _].
      rewrite prefix_dotdot in Hp. rewrite Hp, IH2 by exact Ht.
      reflexivity. }
  apply H.
Qed.

(** the first separator ends the first piece *)
Lemma split_dotdot_first (a s : string) :
  str_in ".." (a ++ ".") = false ->
  split_dotdot (a ++ ".." ++ s) = a :: split_dotdot s.
Proof.
  induction a as [|c a IH]; intros H.
  - reflexivity.
  - pose proof (str_in_tail _ _ _ H) as Ht. specialize (IH Ht).
    assert (Hc : exists c' r r',
               a ++ ".." ++ s = String c' r /\ a ++ "." = String c' r').
    { destruct a as [|c' a]; simpl; eauto. }
    destruct Hc as (c' & r & r' & Er & Er').
    change (String c a ++ ".." ++ s) with (String c (a ++ ".." ++ s)).
    change (String c a ++ ".") with (String c (a ++ ".")) in H.
    rewrite Er' in H. cbn [str_in] in H.
    apply orb_false_elim in H as [Hp _]. rewrite prefix_dotdot in Hp.
    rewrite Er, split_dotdot_cons2, Hp, <- Er, IH. reflexivity.
Qed.

(** Taking the separators greedily from the left misses none. *)
Lemma split_dotdot_length_cons (s : string) :
  (forall c, List.length (split_dotdot s) <=
             List.length (split_dotdot (String c s))) /\
  (forall c, List.length (split_dotdot (String c s)) <=
             S (List.length (split_dotdot s))).
Proof.
  induction s as [|c' r [IH1 IH2]].
  - split; intros c; simpl; lia.
  - split; intros c; rewrite split_dotdot_cons2;
      destruct (is_dot c && is_dot c').
    + simpl List.length at 2. apply IH2.
    + rewrite push_char_length by apply split_dotdot_nonempty. lia.
    + simpl List.length at 1. apply le_n_S, IH1.
    + rewrite push_char_length by apply split_dotdot_nonempty. lia.
Qed.

Lemma split_dotdot_length_app (a s : string) :
  S (List.length (split_dotdot s)) <=
  List.length (split_dotdot (a ++ ".." ++ s)).
Proof.
  induction a as [|c a IH]; [simpl; lia|].
  change (String c a ++ ".." ++ s) with (String c (a ++ ".." ++ s)).
  etransitivity; [exact IH | apply split_dotdot_length_cons].
Qed.

Lemma split_dotdot_length_pos (s : string) :
  1 <= List.length (split_dotdot s).
Proof.
  pose proof (split_dotdot_nonempty s).
  destruct (split_dotdot s); [congruence | simpl; lia].
Qed.

End StringFacts.

(** ** Metadata generator *)

Section MetaFacts.
Local Open Scope string_scope.
Import Dict DictFacts.

Lemma foldM_app {A S : Type} (f : S -> A -> outcome S) (l1 l2 : list A)
  (s : S) :
  foldM f (l1 ++ l2)%list s = (s' <- foldM f l1 s ;; foldM f l2 s').
Proof.
  revert s. induction l1 as [|a l1 IH]; intros s; simpl; [reflexivity|].
  destruct (f s a); simpl; [apply IH | reflexivity].
Qed.

Lemma foldM_collect {A B : Type} (g : A -> outcome B) (l : list A)
  (acc : list B) :
  foldM (fun meta a => entry <- g a ;; Ok (meta ++ [entry])%list) l acc =
  (entries <- mapM g l ;; Ok (acc ++ entries)%list).
Proof.
  revert acc. induction l as [|a l IH]; intros acc; simpl.
  - now rewrite app_nil_r.
  - destruct (g a) as [b|]; simpl; try reflexivity.
    rewrite IH. destruct (mapM g l); simpl; try reflexivity.
    now rewrite <- app_assoc.
Qed.

(** *** [parse_multiplicity] *)

Lemma parse_outcome (s : string) :
  parse_multiplicity s = Raise ValueError \/
  exists m, parse_multiplicity s = Ok m.
Proof.
  unfold parse_multiplicity. destruct (str_in ".." s); [|eauto].
  destruct (split_dotdot s) as [|p [|q [|r l]]]; eauto.
Qed.

Lemma parse_single (s : string) :
  str_in ".." s = false -> parse_multiplicity s = Ok (s, s).
Proof. unfold parse_multiplicity. now intros ->. Qed.

Lemma parse_pair (mn mx : string) :
  str_in ".." (mn ++ ".") = false -> str_in ".." mx = false ->
  parse_multiplicity (mn ++ ".." ++ mx) = Ok (mn, mx).
Proof.
  intros Hmn Hmx. unfold parse_multiplicity.
  rewrite str_in_app, split_dotdot_first by exact Hmn.
  now rewrite split_dotdot_none by exact Hmx.
Qed.

Lemma parse_Ok_join (s mn mx : string) :
  str_in ".." s = true -> parse_multiplicity s = Ok (mn, mx) ->
  s = mn ++ ".." ++ mx.
Proof.
  unfold parse_multiplicity. intros ->.
  pose proof (join_split_dotdot s) as Hj.
  destruct (split_dotdot s) as [|p [|q [|r l]]]; try discriminate.
  intros [= <- <-]. now rewrite <- Hj.
Qed.

Lemma parse_two_separators (a b c : string) :
  parse_multiplicity (a ++ ".." ++ b ++ ".." ++ c) = Raise ValueError.
Proof.
  unfold parse_multiplicity. rewrite str_in_app.
  pose proof (split_dotdot_length_app a (b ++ ".." ++ c)) as H1.
  pose proof (split_dotdot_length_app b c) as H2.
  pose proof (split_dotdot_length_pos c) as H3.
  destruct (split_dotdot (a ++ ".." ++ b ++ ".." ++ c)) as [|p [|q [|r l]]];
    cbn [List.length] in H1; try reflexivity.
  lia.
Qed.

Lemma parse_raises_split (s : string) :
  parse_multiplicity s = Raise ValueError ->
  exists a b c, s = a ++ ".." ++ b ++ ".." ++ c.
Proof.
  unfold parse_multiplicity. destruct (str_in ".." s) eqn:E; [|discriminate].
  destruct (str_in_split _ _ E) as (a0 & b0 & Es).
  pose proof (split_dotdot_length_app a0 b0) as H1. rewrite <- Es in H1.
  pose proof (split_dotdot_length_pos b0) as H2.
  pose proof (join_split_dotdot s) as Hj.
  destruct (split_dotdot s) as [|p [|q [|r l]]]; cbn [List.length] in H1;
    try lia; try discriminate.
  intros _. exists p, q, (str_join ".." (r :: l)). now rewrite <- Hj.
Qed.

(** *** The scan of the edges for one class *)

Lemma class_multiplicity_scan (aggs : list aggregation) (c : string) :
  class_multiplicity aggs c = foldM (scan_step c) aggs ("0", "*").
Proof. reflexivity. Qed.


Lemma scan_total (aggs : list aggregation) (c : string)
  (m : string * string) :
  (forall a, In a aggs -> source a = c ->
             exists m', multiplicity_bounds (sourceMultiplicity a) = Ok m') ->
  exists m', foldM (scan_step c) aggs m = Ok m'.
Proof.
  revert m. induction aggs as [|a l IH]; intros m H; simpl; [eauto|].
  assert (Hl : forall a', In a' l -> source a' = c ->
                 exists m', multiplicity_bounds (sourceMultiplicity a') = Ok m')
    by (intros a' Hin; apply H; now right).
  unfold scan_step at 1.
  destruct (String.eqb_spec (source a) c) as [E|_]; simpl; [|now apply IH].
  destruct (H a (or_introl eq_refl) E) as (m' & ->). simpl. now apply IH.
Qed.

Lemma bounds_raise (m : option string) (e : exn) :
  multiplicity_bounds m = Raise e ->
  (m = None /\ e = TypeError) \/
  (exists a b c, m = Some (a ++ ".." ++ b ++ ".." ++ c) /\ e = ValueError).
Proof.
  destruct m as [s|]; simpl.
  - intros H. right.
    destruct (parse_outcome s) as [Hp|(b & Hp)]; [|congruence].
    rewrite Hp in H. injection H as <-.
    destruct (parse_raises_split _ Hp) as (a & b & c & ->).
    exists a, b, c. split; reflexivity.
  - intros [= <-]. now left.
Qed.

(** an exception of the scan is that of one of its edges *)
Lemma scan_raise (aggs : list aggregation) (c : string)
  (m : string * string) (e : exn) :
  foldM (scan_step c) aggs m = Raise e ->
  exists agg, In agg aggs /\ source agg = c /\
              multiplicity_bounds (sourceMultiplicity agg) = Raise e.
Proof.
  revert m. induction aggs as [|a l IH]; intros m; [discriminate|].
  cbn [foldM]. unfold scan_step at 1.
  destruct (String.eqb_spec (source a) c) as [E|_].
  - destruct (multiplicity_bounds (sourceMultiplicity a)) as [m'|e'] eqn:Ea;
      cbn [bind].
    + intros H. destruct (IH _ H) as (agg & Hin & Hs & Hb).
      exists agg. split; [now right | auto].
    + intros [= ->]. exists a. split; [now left | auto].
  - cbn [bind]. intros H. destruct (IH _ H) as (agg & Hin & Hs & Hb).
    exists agg. split; [now right | auto].
Qed.

(** an edge of the class that is refused makes the scan raise *)
Lemma scan_rejects (aggs : list aggregation) (c : string)
  (m : string * string) (agg : aggregation) (e : exn) :
  In agg aggs -> source agg = c ->
  multiplicity_bounds (sourceMultiplicity agg) = Raise e ->
  exists e', foldM (scan_step c) aggs m = Raise e'.
Proof.
  intros Hin Hs Hp. revert m.
  induction aggs as [|a l IH]; intros m; [destruct Hin|].
  cbn [foldM].
  destruct (scan_step c m a) as [m'|e'] eqn:Ea; cbn [bind]; [|eauto].
  destruct Hin as [->|Hin]; [|now apply IH].
  unfold scan_step in Ea. rewrite Hs, String.eqb_refl in Ea. congruence.
Qed.


Lemma meta_of_class_outcome (aggs : list aggregation) (c : string)
  (d : class_data) :
  (exists e, class_multiplicity aggs c = Raise e /\
             meta_of_class aggs c d = Raise e) \/
  exists m, class_multiplicity aggs c = Ok m /\
            meta_of_class aggs c d =
            Ok (mk_meta c (documentation d) (isRoot d) (class_parameters d)
                  (if isRoot d then None else Some (fst m))
                  (if isRoot d then None else Some (snd m))).
Proof.
  unfold meta_of_class.
  destruct (class_multiplicity aggs c) as [m|e]; cbn [bind]; eauto.
Qed.

Lemma generate_meta_json_mapM (classes : classes_t)
  (aggs : list aggregation) :
  generate_meta_json classes aggs =
  mapM (fun e => meta_of_class aggs (fst e) (snd e)) classes.
Proof.
  unfold generate_meta_json.
  rewrite (foldM_collect (fun e => meta_of_class aggs (fst e) (snd e))).
  now destruct (mapM _ classes).
Qed.

(** an exception of the generator is that of an edge whose source is a
    class of the mapping *)
Lemma generate_meta_json_raise (classes : classes_t)
  (aggs : list aggregation) (e : exn) :
  generate_meta_json classes aggs = Raise e ->
  exists agg, In agg aggs /\ In (source agg) (keys classes) /\
              multiplicity_bounds (sourceMultiplicity agg) = Raise e.
Proof.
  rewrite generate_meta_json_mapM. intros H.
  apply mapM_Raise in H as ([c d] & Hin & Hm). cbn [fst snd] in Hm.
  destruct (meta_of_class_outcome aggs c d) as [(e' & Hc & He)|(m & _ & He)];
    [|congruence].
  assert (e' = e) as -> by congruence.
  rewrite class_multiplicity_scan in Hc.
  destruct (scan_raise _ _ _ _ Hc) as (agg & Ha & Hs & Hb).
  exists agg. split; [exact Ha | split; [|exact Hb]].
  subst c. apply (in_map fst) in Hin. exact Hin.
Qed.

(** a refused edge whose source is a class of the mapping makes the
    generator raise *)
Lemma generate_meta_json_rejects (classes : classes_t)
  (aggs : list aggregation) (agg : aggregation) (e : exn) :
  In agg aggs -> In (source agg) (keys classes) ->
  multiplicity_bounds (sourceMultiplicity agg) = Raise e ->
  exists e', generate_meta_json classes aggs = Raise e'.
Proof.
  intros Hin Hk Hp. rewrite generate_meta_json_mapM.
  induction classes as [|[c d] l IH]; [destruct Hk|]. cbn [mapM fst snd].
  destruct (meta_of_class aggs c d) as [m|e'] eqn:Em; cbn [bind]; [|eauto].
  destruct Hk as [E|Hk].
  - exfalso. simpl in E. subst c. unfold meta_of_class in Em.
    rewrite class_multiplicity_scan in Em.
    destruct (scan_rejects aggs _ ("0", "*") agg e Hin eq_refl Hp)
      as (e' & He').
    rewrite He' in Em. discriminate.
  - destruct (IH Hk) as (e' & ->). cbn [bind]. eauto.
Qed.

End MetaFacts.

Section MetaClaims.
Local Open Scope string_scope.
Import Dict DictFacts.




Example sample_metadata :
  generate_meta_json (fst sample_graph) (snd sample_graph) =
  Ok [mk_meta "Root" "" true [mk_parameter "Item" "class"] None None;
      mk_meta "Item" "an item" false [mk_parameter "name" "string"]
        (Some "1") (Some "*")].
Proof. reflexivity. Qed.

Example last_edge_wins :
  class_multiplicity
    [mk_aggregation "Item" "Root" (Some "1..*") (Some "1");
     mk_aggregation "Other" "Root" (Some "7") (Some "1");
     mk_aggregation "Item" "Box" (Some "2..5") (Some "1")] "Item" = Ok ("2", "5").
Proof. reflexivity. Qed.


(** C7.  A multiplicity without [".."] is both bounds; a multiplicity with
    [".."] that parses is its lower part, the separator and its upper part,
    and it does parse when the first [".."] is the only one; ["3"] gives
    [("3", "3")]. *)
Theorem multiplicity_parsing :
  (forall s, str_in ".." s = false -> parse_multiplicity s = Ok (s, s)) /\
  (forall s mn mx,
     str_in ".." s = true -> parse_multiplicity s = Ok (mn, mx) ->
     s = mn ++ ".." ++ mx) /\
  (forall mn mx,
     str_in ".." (mn ++ ".") = false -> str_in ".." mx = false ->
     parse_multiplicity (mn ++ ".." ++ mx) = Ok (mn, mx)) /\
  parse_multiplicity "3" = Ok ("3", "3") /\
  parse_multiplicity "1..*" = Ok ("1", "*").
Proof.
  split; [exact parse_single|].
  split; [exact parse_Ok_join|].
  split; [exact parse_pair|].
  split; reflexivity.
Qed.

(** C8 (as the code has it).  A multiplicity string raises ([ValueError],
    out of the tuple assignment) exactly when it holds two separators that
    do not overlap.  [generate_meta_json] raises exactly when some edge
    whose source is a class of the mapping has such a string, or has no
    source multiplicity at all; [ValueError] comes from an edge with such a
    string, and it is the only exception when every such edge has a source
    multiplicity.  No other string is refused: an empty lower or upper part
    is taken as the bound. *)
Theorem malformed_multiplicity :
  (forall s, parse_multiplicity s = Raise ValueError <->
             exists a b c, s = a ++ ".." ++ b ++ ".." ++ c) /\
  (forall classes aggs,
     (exists e, generate_meta_json classes aggs = Raise e) <->
     exists agg,
       In agg aggs /\ In (source agg) (keys classes) /\
       (sourceMultiplicity agg = None \/
        exists a b c,
          sourceMultiplicity agg = Some (a ++ ".." ++ b ++ ".." ++ c))) /\
  (forall classes aggs,
     generate_meta_json classes aggs = Raise ValueError ->
     exists agg a b c,
       In agg aggs /\ In (source agg) (keys classes) /\
       sourceMultiplicity agg = Some (a ++ ".." ++ b ++ ".." ++ c)) /\
  (forall classes aggs e,
     (forall agg, In agg aggs -> In (source agg) (keys classes) ->
                  sourceMultiplicity agg <> None) ->
     generate_meta_json classes aggs = Raise e -> e = ValueError) /\
  parse_multiplicity "1.." = Ok ("1", "") /\
  parse_multiplicity "..5" = Ok ("", "5") /\
  parse_multiplicity ".." = Ok ("", "").
Proof.
  split; [|split; [|split; [|split; [|repeat split]]]].
  - intros s. split; [apply parse_raises_split|].
    intros (a & b & c & ->). apply parse_two_separators.
  - intros classes aggs. split.
    + intros (e & He).
      destruct (generate_meta_json_raise _ _ _ He) as (agg & Hin & Hk & Hb).
      exists agg. split; [exact Hin | split; [exact Hk|]].
      destruct (bounds_raise _ _ Hb) as [(Hn & _)|(a & b & c & Hs & _)];
        [now left | right; eauto].
    + intros (agg & Hin & Hk & [Hn|(a & b & c & Hs)]).
      * apply (generate_meta_json_rejects classes aggs agg TypeError Hin Hk).
        now rewrite Hn.
      * apply (generate_meta_json_rejects classes aggs agg ValueError Hin Hk).
        rewrite Hs. apply parse_two_separators.
  - intros classes aggs He.
    destruct (generate_meta_json_raise _ _ _ He) as (agg & Hin & Hk & Hb).
    destruct (bounds_raise _ _ Hb) as [(_ & [=])|(a & b & c & Hs & _)].
    exists agg, a, b, c. auto.
  - intros classes aggs e Hall He.
    destruct (generate_meta_json_raise _ _ _ He) as (agg & Hin & Hk & Hb).
    destruct (bounds_raise _ _ Hb) as [(Hn & _)|(a & b & c & _ & ->)];
      [|reflexivity].
    now apply Hall in Hn.
Qed.

(** C8, counterexample: the multiplicity ["1.."] has an empty upper part,
    and the metadata is generated with [min = "1"] and [max = ""]. *)
Lemma empty_bound_accepted :
  parse_multiplicity "1.." = Ok ("1", "") /\
  generate_meta_json (fst open_range_graph) (snd open_range_graph) =
  Ok [mk_meta "Root" "" true [mk_parameter "Item" "class"] None None;
      mk_meta "Item" "" false [] (Some "1") (Some "")].
Proof. split; reflexivity. Qed.

End MetaClaims.

(** * Part IV: further properties of the program *)

(** ** [parse_xml] *)

Section ParseXmlFacts.
Import Dict DictFacts.

Lemma mem_of_keys {V W : Type} (d : Dict.dict V) (d' : Dict.dict W)
  (k : string) :
  keys d = keys d' -> mem k d = mem k d'.
Proof.
  intros H. apply Bool.eq_true_iff_eq. rewrite !mem_keys, H. tauto.
Qed.

Lemma keys_append_child (t : string) (ch : child) (cs : classes_t) :
  keys (append_child t ch cs) = keys cs.
Proof.
  unfold append_child. destruct (get t cs) as [d|] eqn:E; [|reflexivity].
  rewrite keys_set. unfold mem. now rewrite E.
Qed.

Lemma get_append_child (t t' : string) (ch : child) (cs : classes_t) :
  get t' (append_child t ch cs) =
  if String.eqb t t' then option_map (add_children [ch]) (get t' cs)
  else get t' cs.
Proof.
  unfold append_child. destruct (get t cs) as [d|] eqn:E.
  - rewrite get_set. destruct (String.eqb_spec t t') as [<-|]; [|reflexivity].
    now rewrite E.
  - destruct (String.eqb_spec t t') as [<-|]; [|reflexivity]. now rewrite E.
Qed.

(** The loop over the edges, from any state. *)
Lemma parse_aggregations_state (l : list aggregation) :
  forall (cs : classes_t) (acc : list aggregation),
    let st := fold_left parse_aggregation l (cs, acc) in
    snd st = acc ++ l /\
    keys (fst st) = keys cs /\
    forall t,
      get t (fst st) =
      option_map
        (add_children
           (map child_of_edge
              (filter (fun a => String.eqb (target a) t && mem (source a) cs)
                      l)))
        (get t cs).
Proof.
  induction l as [|a l IH]; intros cs acc; simpl.
  - split; [now rewrite app_nil_r | split; [reflexivity|]].
    intros t. destruct (get t cs) as [d|]; [|reflexivity]. simpl.
    unfold add_children. rewrite app_nil_r. now destruct d.
  - set (cs1 := if mem (source a) cs && mem (target a) cs
                then append_child (target a) (child_of_edge a) cs else cs).
    assert (Est : (if mem (source a) cs && mem (target a) cs
                   then (append_child (target a)
                           (mk_child (source a) (sourceMultiplicity a)) cs,
                         acc ++ [a])
                   else (cs, acc ++ [a])) = (cs1, acc ++ [a])).
    { unfold cs1, child_of_edge.
      now destruct (mem (source a) cs && mem (target a) cs). }
    rewrite Est. destruct (IH cs1 (acc ++ [a])) as (Hs & Hk & Hg).
    assert (Hk1 : keys cs1 = keys cs).
    { unfold cs1. destruct (mem (source a) cs && mem (target a) cs);
        [apply keys_append_child | reflexivity]. }
    split; [now rewrite Hs, <- app_assoc | split; [congruence|]].
    intros t. rewrite Hg.
    rewrite (filter_ext
               (fun a0 => String.eqb (target a0) t && mem (source a0) cs1)
               (fun a0 => String.eqb (target a0) t && mem (source a0) cs))
      by (intros a0; now rewrite (mem_of_keys cs1 cs _ Hk1)).
    assert (Hg1 : get t cs1 =
                  if String.eqb (target a) t && mem (source a) cs
                  then option_map (add_children [child_of_edge a]) (get t cs)
                  else get t cs).
    { unfold cs1. destruct (String.eqb_spec (target a) t) as [E|Hne]; simpl.
      - rewrite E. destruct (get t cs) as [d|] eqn:Ed.
        + unfold mem at 2. rewrite Ed, andb_true_r.
          destruct (mem (source a) cs); [|now rewrite Ed].
          now rewrite get_append_child, String.eqb_refl, Ed.
        + destruct (mem (source a) cs && mem t cs);
            [|destruct (mem (source a) cs); now rewrite Ed].
          rewrite get_append_child, String.eqb_refl, Ed.
          now destruct (mem (source a) cs).
      - destruct (mem (source a) cs && mem (target a) cs); [|reflexivity].
        rewrite get_append_child.
        now destruct (String.eqb_spec (target a) t). }
    rewrite Hg1.
    destruct (String.eqb (target a) t && mem (source a) cs);
      destruct (get t cs) as [d|]; simpl; try reflexivity.
    unfold add_children. simpl. now rewrite <- app_assoc.
Qed.

Lemma parse_classes_wf (l : list class_elem) (d0 : classes_t) :
  wf d0 -> wf (fold_left parse_class l d0).
Proof.
  revert d0. induction l as [|ce l IH]; intros d0 H; simpl; [exact H|].
  apply IH. unfold parse_class. now apply wf_set.
Qed.

Lemma parse_classes_mem (l : list class_elem) (d0 : classes_t) (c : string) :
  mem c (fold_left parse_class l d0) = mem c d0 || declared l c.
Proof.
  revert d0. induction l as [|ce l IH]; intros d0; simpl.
  - now rewrite orb_false_r.
  - rewrite IH. unfold parse_class, mem at 1. rewrite get_set.
    fold (mem c d0).
    destruct (String.eqb (ce_name ce) c); simpl;
      [now rewrite orb_true_r | reflexivity].
Qed.

Lemma parse_classes_get_other (l : list class_elem) (d0 : classes_t)
  (c : string) :
  declared l c = false -> get c (fold_left parse_class l d0) = get c d0.
Proof.
  revert d0. induction l as [|ce l IH]; intros d0 H; simpl; [reflexivity|].
  simpl in H. apply orb_false_elim in H as [Hce Hl].
  rewrite IH by exact Hl. unfold parse_class. now rewrite get_set, Hce.
Qed.

Lemma parse_classes_last (l1 l2 : list class_elem) (ce : class_elem)
  (d0 : classes_t) :
  declared l2 (ce_name ce) = false ->
  get (ce_name ce) (fold_left parse_class (l1 ++ ce :: l2) d0) =
  Some (elem_data ce).
Proof.
  intros H. rewrite fold_left_app. simpl.
  rewrite parse_classes_get_other by exact H.
  unfold parse_class. now rewrite get_set, String.eqb_refl.
Qed.

End ParseXmlFacts.

Section ParseXmlProperties.
Import Dict DictFacts.

(** X1.  [parse_xml] returns the edges it was given, all of them and in
    their order, whether or not their classes are declared. *)
Theorem parse_xml_edges_retained (class_elems : list class_elem)
  (agg_elems : list aggregation) :
  snd (parse_xml class_elems agg_elems) = agg_elems.
Proof.
  unfold parse_xml.
  destruct (parse_aggregations_state agg_elems
              (fold_left parse_class class_elems []) []) as (H & _).
  exact H.
Qed.

(** X2.  The mapping [parse_xml] returns has no repeated key; its keys are
    the declared class names; and when a name is declared more than once
    the entry holds the root flag, the documentation and the attributes of
    the last declaration. *)
Theorem parse_xml_classes (class_elems : list class_elem)
  (agg_elems : list aggregation) :
  let classes := fst (parse_xml class_elems agg_elems) in
  wf classes /\
  (forall c, mem c classes = declared class_elems c) /\
  (forall l1 ce l2,
     class_elems = l1 ++ ce :: l2 ->
     declared l2 (ce_name ce) = false ->
     exists d,
       get (ce_name ce) classes = Some d /\
       isRoot d = isRoot (elem_data ce) /\
       documentation d = documentation (elem_data ce) /\
       attributes d = attributes (elem_data ce)).
Proof.
  unfold parse_xml.
  destruct (parse_aggregations_state agg_elems
              (fold_left parse_class class_elems []) []) as (_ & Hk & Hg).
  cbv zeta. split; [|split].
  - unfold wf. rewrite Hk. apply parse_classes_wf. constructor.
  - intros c. rewrite (mem_of_keys _ _ c Hk). apply parse_classes_mem.
  - intros l1 ce l2 -> Hl2. rewrite Hg, parse_classes_last by exact Hl2.
    simpl. eexists. split; [reflexivity|]. auto.
Qed.

(** X3.  The children of a declared class are the edges that target it and
    whose source is declared, in the order of the edges, each with the
    edge's source and source multiplicity; an edge naming an undeclared
    class adds no child; an undeclared name has no entry. *)
Theorem parse_xml_children (class_elems : list class_elem)
  (agg_elems : list aggregation) (t : string) :
  option_map children (get t (fst (parse_xml class_elems agg_elems))) =
  if declared class_elems t
  then Some (map child_of_edge
               (filter (fun a => String.eqb (target a) t &&
                                 declared class_elems (source a))
                       agg_elems))
  else None.
Proof.
  unfold parse_xml.
  destruct (parse_aggregations_state agg_elems
              (fold_left parse_class class_elems []) []) as (_ & _ & Hg).
  rewrite Hg.
  rewrite (filter_ext
             (fun a => String.eqb (target a) t &&
                       mem (source a) (fold_left parse_class class_elems []))
             (fun a => String.eqb (target a) t &&
                       declared class_elems (source a)))
    by (intros a; now rewrite parse_classes_mem).
  pose proof (parse_classes_mem class_elems [] t) as Hm. simpl in Hm.
  rewrite <- Hm. unfold mem.
  destruct (get t (fold_left parse_class class_elems [])) as [d|] eqn:E;
    [|reflexivity].
  simpl. apply get_Some_In in E.
  now rewrite (parse_classes_no_children class_elems []
                 (fun _ _ H => match H with end) t d E).
Qed.

End ParseXmlProperties.

(** ** [generate_config_xml] *)

Section TreeProperties.
Import Dict DictFacts.
Variable classes : classes_t.

Lemma build_KeyError_dangling (depth : nat) :
  forall c indent,
    build_xml_element depth classes c indent = Raise KeyError ->
    exists c', reaches classes c c' /\ get c' classes = None.
Proof.
  induction depth as [|depth IH]; intros c indent H; [discriminate|].
  rewrite build_xml_element_S in H.
  destruct (get c classes) as [d|] eqn:Ed.
  - destruct (mapM _ (children d)) as [subs|e'] eqn:E; try discriminate.
    simpl in H. injection H as ->.
    apply mapM_Raise in E as (ch & Hin & Hch).
    destruct (IH _ _ Hch) as (c' & Hr & Hc').
    exists c'. split; [|exact Hc'].
    eapply rt_trans; [apply rt_step; exists d, ch; eauto | exact Hr].
  - exists c. split; [apply rt_refl | exact Ed].
Qed.

Lemma first_root_Raise (e : exn) :
  first_root classes = Raise e ->
  e = StopIteration /\ forall c d, In (c, d) classes -> isRoot d = false.
Proof.
  induction classes as [|[c d] l IH]; simpl.
  - intros [= <-]. split; [reflexivity | intros c d []].
  - destruct (isRoot d) eqn:E; [discriminate|]. intros H.
    destruct (IH H) as (He & Hl). split; [exact He|].
    intros c' d' [[= <- <-]|Hin]; [exact E | eauto].
Qed.

(** X4.  [generate_config_xml] raises in three cases only:
    [StopIteration], and then no class is marked as root; [KeyError], and
    then the first root reaches, along containment, a name that is not a
    key of the mapping; [RecursionError], and then a containment path
    starts at the first root that has one class more than the recursion
    depth the interpreter allows. *)
Theorem generate_config_xml_errors (depth : nat) (e : exn) :
  generate_config_xml depth classes = Raise e ->
  (e = StopIteration /\
   forall c d, In (c, d) classes -> isRoot d = false) \/
  (e = KeyError /\
   exists r c', first_root classes = Ok r /\ reaches classes r c' /\
                get c' classes = None) \/
  (e = RecursionError /\
   exists r p, first_root classes = Ok r /\ walk classes r p /\
               List.length p = S depth).
Proof.
  unfold generate_config_xml. intros H.
  destruct (first_root classes) as [r|e'] eqn:Er; cbn [bind] in H.
  - destruct (build_xml_element depth classes r 0) as [l|e'] eqn:Eb;
      cbn [bind] in H; try discriminate.
    injection H as ->. right.
    destruct (build_raise_kind classes _ _ _ _ Eb) as [->| ->].
    + left. split; [reflexivity|].
      destruct (build_KeyError_dangling _ _ _ Eb) as (c' & Hr & Hc').
      exists r, c'. auto.
    + right. split; [reflexivity|].
      destruct (build_RecursionError_walk classes _ _ _ Eb) as (p & Hw & Hl).
      exists r, p. auto.
  - injection H as ->. left. now apply first_root_Raise.
Qed.

End TreeProperties.

Lemma generate_config_xml_errors_witness :
  (KeyError = StopIteration /\
   forall c d, In (c, d) dangling_classes -> isRoot d = false) \/
  (KeyError = KeyError /\
   exists r c', first_root dangling_classes = Ok r /\
                reaches dangling_classes r c' /\
                Dict.get c' dangling_classes = None) \/
  (KeyError = RecursionError /\
   exists r p, first_root dangling_classes = Ok r /\
               walk dangling_classes r p /\ List.length p = 3).
Proof.
  apply (generate_config_xml_errors dangling_classes 2 KeyError).
  reflexivity.
Defined.

Section IndentShift.
Local Open Scope string_scope.
Import Dict DictFacts.

Lemma str_append_assoc (a b c : string) : (a ++ b) ++ c = a ++ b ++ c.
Proof. induction a as [|x a IH]; simpl; [reflexivity | now rewrite IH]. Qed.

Lemma indent_str_add (j i : nat) :
  indent_str (j + i) = indent_str j ++ indent_str i.
Proof.
  unfold indent_str. induction j as [|j IH]; simpl; [reflexivity|].
  now rewrite IH.
Qed.

Lemma mapM_ext {A B : Type} (g g' : A -> outcome B) (l : list A) :
  (forall a, g a = g' a) -> mapM g l = mapM g' l.
Proof.
  intros H. induction l as [|a l IH]; simpl; [reflexivity|].
  now rewrite H, IH.
Qed.

Lemma mapM_map {A B C : Type} (g : A -> outcome B) (f : B -> C)
  (l : list A) :
  mapM (fun a => b <- g a ;; Ok (f b)) l =
  (bs <- mapM g l ;; Ok (map f bs)).
Proof.
  induction l as [|a l IH]; simpl; [reflexivity|].
  destruct (g a) as [b|]; simpl; try reflexivity.
  rewrite IH. now destruct (mapM g l).
Qed.

(** X6.  The block of a class at indentation [j + i] is its block at
    indentation [i] with [j] more levels of two spaces in front of every
    line; in particular nothing but the leading spaces of a line depends on
    where the block is nested. *)
Theorem build_xml_element_indent (classes : classes_t) (depth : nat) :
  forall (c : string) (i j : nat),
    build_xml_element depth classes c (j + i) =
    (l <- build_xml_element depth classes c i ;;
     Ok (map (String.append (indent_str j)) l)).
Proof.
  induction depth as [|depth IH]; intros c i j; [reflexivity|].
  rewrite !build_xml_element_S.
  destruct (get c classes) as [d|]; [|reflexivity].
  rewrite (mapM_ext _
             (fun ch => l <- build_xml_element depth classes (child_name ch)
                              (i + 1) ;;
                        Ok (map (String.append (indent_str j)) l)))
    by (intros ch; rewrite <- Nat.add_assoc; apply IH).
  rewrite mapM_map.
  destruct (mapM _ (children d)) as [subs|]; try reflexivity.
  cbn [bind]. f_equal.
  assert (Ho : open_tag (j + i) c = indent_str j ++ open_tag i c)
    by (unfold open_tag; now rewrite indent_str_add, str_append_assoc).
  assert (Hc : close_tag (j + i) c = indent_str j ++ close_tag i c)
    by (unfold close_tag; now rewrite indent_str_add, str_append_assoc).
  assert (Ha : forall a, attr_line (j + i + 1) a =
                         indent_str j ++ attr_line (i + 1) a).
  { intros a. unfold attr_line.
    now rewrite <- Nat.add_assoc, indent_str_add, str_append_assoc. }
  cbn [map]. rewrite Ho. f_equal.
  rewrite !map_app, map_map, concat_map. cbn [map]. rewrite Hc.
  f_equal. apply map_ext. exact Ha.
Qed.

End IndentShift.

(** ** [generate_meta_json] *)

Section MetaProperties.
Local Open Scope string_scope.
Import Dict DictFacts.

(** X7.  [generate_meta_json] raises the exception of the first refused
    edge of the first class, in the order of the mapping, that has one:
    when the classes before [c] have no refused edge and [agg] is the first
    refused edge, in the order of the edges, whose source is [c], the
    exception of [agg] is raised ([TypeError] for an absent source
    multiplicity, [ValueError] for one with two separators). *)
Theorem generate_meta_json_first_error (classes1 classes2 : classes_t)
  (c : string) (d : class_data) (aggs1 aggs2 : list aggregation)
  (agg : aggregation) (e : exn) :
  (forall a, In a (aggs1 ++ agg :: aggs2)%list ->
             In (source a) (keys classes1) ->
             exists m, multiplicity_bounds (sourceMultiplicity a) = Ok m) ->
  (forall a, In a aggs1 -> source a = c ->
             exists m, multiplicity_bounds (sourceMultiplicity a) = Ok m) ->
  source agg = c ->
  multiplicity_bounds (sourceMultiplicity agg) = Raise e ->
  generate_meta_json (classes1 ++ (c, d) :: classes2)%list
                     (aggs1 ++ agg :: aggs2)%list = Raise e.
Proof.
  intros H1 Ha Hs Hb. rewrite generate_meta_json_mapM.
  induction classes1 as [|[c1 d1] l IH]; cbn [app mapM fst snd].
  - unfold meta_of_class. rewrite class_multiplicity_scan, foldM_app.
    destruct (scan_total aggs1 c ("0", "*") Ha) as (m1 & ->).
    cbn [bind foldM]. unfold scan_step at 1.
    now rewrite Hs, String.eqb_refl, Hb.
  - unfold meta_of_class at 1. rewrite class_multiplicity_scan.
    destruct (scan_total (aggs1 ++ agg :: aggs2) c1 ("0", "*"))
      as (m1 & ->).
    { intros a Hin Hc1. apply H1; [exact Hin | left; now rewrite Hc1]. }
    cbn [bind]. rewrite IH; [reflexivity|].
    intros a Hin Hk. apply H1; [exact Hin | now right].
Qed.

Lemma mapM_ext_in {A B : Type} (g g' : A -> outcome B) (l : list A) :
  (forall a, In a l -> g a = g' a) -> mapM g l = mapM g' l.
Proof.
  induction l as [|a l IH]; intros H; simpl; [reflexivity|].
  rewrite (H a) by now left.
  rewrite IH by (intros a' Hin; apply H; now right). reflexivity.
Qed.

Lemma scan_filter (classes : classes_t) (c : string) :
  mem c classes = true ->
  forall aggs m,
    foldM (scan_step c) (filter (fun a => mem (source a) classes) aggs) m =
    foldM (scan_step c) aggs m.
Proof.
  intros Hc. induction aggs as [|a l IH]; intros m; [reflexivity|].
  cbn [filter]. destruct (mem (source a) classes) eqn:Ea; cbn [foldM].
  - destruct (scan_step c m a); cbn [bind]; [apply IH | reflexivity..].
  - unfold scan_step at 2.
    destruct (String.eqb_spec (source a) c) as [E|_]; [congruence|].
    cbn [bind]. apply IH.
Qed.

Lemma scan_retarget (f : aggregation -> option string) (c : string) :
  forall aggs m,
    foldM (scan_step c) (map (with_targetMultiplicity f) aggs) m =
    foldM (scan_step c) aggs m.
Proof.
  induction aggs as [|a l IH]; intros m; [reflexivity|]. cbn [map foldM].
  change (scan_step c m (with_targetMultiplicity f a)) with (scan_step c m a).
  destruct (scan_step c m a); cbn [bind]; [apply IH | reflexivity..].
Qed.

Lemma parse_aggregations_retarget (f : aggregation -> option string)
  (l : list aggregation) :
  forall (cs : classes_t) (acc1 acc2 : list aggregation),
    fst (fold_left parse_aggregation (map (with_targetMultiplicity f) l)
           (cs, acc1)) =
    fst (fold_left parse_aggregation l (cs, acc2)).
Proof.
  induction l as [|a l IH]; intros cs acc1 acc2; [reflexivity|].
  cbn [map fold_left]. unfold parse_aggregation at 2 4.
  cbn [with_targetMultiplicity source target sourceMultiplicity].
  destruct (mem (source a) cs && mem (target a) cs); apply IH.
Qed.

(** X8.  Edges whose source is not a declared class have no effect on the
    metadata: they are never parsed, so they change neither the descriptors
    nor whether [ValueError] is raised. *)
Theorem generate_meta_json_declared_sources (classes : classes_t)
  (aggs : list aggregation) :
  generate_meta_json classes
    (filter (fun a => mem (source a) classes) aggs) =
  generate_meta_json classes aggs.
Proof.
  rewrite !generate_meta_json_mapM. apply mapM_ext_in.
  intros [c d] Hin. cbn [fst snd]. unfold meta_of_class.
  rewrite !class_multiplicity_scan, scan_filter; [reflexivity|].
  apply mem_keys. apply (in_map fst) in Hin. exact Hin.
Qed.

(** X9.  The target multiplicity of an edge is never used: replacing it
    changes neither the mapping [parse_xml] builds nor the outcome of
    [generate_meta_json]. *)
Theorem targetMultiplicity_unused (f : aggregation -> option string)
  (class_elems : list class_elem) (aggs : list aggregation) :
  fst (parse_xml class_elems (map (with_targetMultiplicity f) aggs)) =
  fst (parse_xml class_elems aggs) /\
  forall classes,
    generate_meta_json classes (map (with_targetMultiplicity f) aggs) =
    generate_meta_json classes aggs.
Proof.
  split; [apply parse_aggregations_retarget|].
  intros classes. rewrite !generate_meta_json_mapM. apply mapM_ext.
  intros [c d]. cbn [fst snd]. unfold meta_of_class.
  now rewrite !class_multiplicity_scan, scan_retarget.
Qed.

End MetaProperties.

Section ParsedModelMetadata.
Import Dict DictFacts.

Lemma parse_xml_wf (class_elems : list class_elem)
  (aggs : list aggregation) :
  wf (fst (parse_xml class_elems aggs)).
Proof.
  unfold parse_xml.
  destruct (parse_aggregations_state aggs
              (fold_left parse_class class_elems []) []) as (_ & Hk & _).
  unfold wf. rewrite Hk. apply parse_classes_wf. constructor.
Qed.

Lemma parse_xml_entry_children (class_elems : list class_elem)
  (aggs : list aggregation) (t : string) (d : class_data) :
  get t (fst (parse_xml class_elems aggs)) = Some d ->
  children d =
  map child_of_edge
    (filter (fun a => String.eqb (target a) t &&
                      declared class_elems (source a)) aggs).
Proof.
  unfold parse_xml.
  destruct (parse_aggregations_state aggs
              (fold_left parse_class class_elems []) []) as (_ & _ & Hg).
  rewrite Hg.
  rewrite (filter_ext
             (fun a => String.eqb (target a) t &&
                       mem (source a) (fold_left parse_class class_elems []))
             (fun a => String.eqb (target a) t &&
                       declared class_elems (source a)))
    by (intros a; now rewrite parse_classes_mem).
  destruct (get t (fold_left parse_class class_elems [])) as [d0|] eqn:E;
    [|discriminate].
  simpl. intros [= <-]. simpl. apply get_Some_In in E.
  now rewrite (parse_classes_no_children class_elems []
                 (fun _ _ H => match H with end) t d0 E).
Qed.

Lemma meta_of_class_Ok (aggs : list aggregation) (c : string)
  (d : class_data) (m : meta_entry) :
  meta_of_class aggs c d = Ok m ->
  meta_class m = c /\ meta_documentation m = documentation d /\
  meta_isRoot m = isRoot d /\ meta_parameters m = class_parameters d.
Proof.
  destruct (meta_of_class_outcome aggs c d) as [(e & _ & ->)|(b & _ & ->)];
    [discriminate|].
  intros [= <-]. simpl. auto.
Qed.

(** X10.  When metadata generation returns for the model [parse_xml]
    built, there is one descriptor per declared class name, in the order of
    the mapping, unreachable classes included; each repeats the
    documentation and root flag of its class, and its parameters are the
    attributes of the class followed by one parameter of type ["class"] for
    every edge that targets the class and has a declared source, in the
    order of the edges. *)
Theorem parsed_model_descriptors (class_elems : list class_elem)
  (aggs : list aggregation) (meta : list meta_entry) :
  generate_meta_json (fst (parse_xml class_elems aggs))
                     (snd (parse_xml class_elems aggs)) = Ok meta ->
  map meta_class meta = keys (fst (parse_xml class_elems aggs)) /\
  forall m, In m meta ->
    exists d,
      get (meta_class m) (fst (parse_xml class_elems aggs)) = Some d /\
      meta_documentation m = documentation d /\
      meta_isRoot m = isRoot d /\
      meta_parameters m =
        map (fun a => mk_parameter (attr_name a) (attr_type a)) (attributes d)
        ++ map (fun a => mk_parameter (source a) "class")
             (filter (fun a => String.eqb (target a) (meta_class m) &&
                               declared class_elems (source a)) aggs).
Proof.
  rewrite generate_meta_json_mapM. intros H. apply mapM_Ok in H.
  split.
  - clear -H. induction H as [|[c d] m l meta Hm _ IH]; [reflexivity|].
    apply meta_of_class_Ok in Hm as (Hc & _). simpl in *.
    now rewrite Hc, IH.
  - intros m Hin.
    destruct (Forall2_In_r _ _ _ m H Hin) as ([c d] & Hcd & Hm).
    apply meta_of_class_Ok in Hm as (Hc & Hdoc & Hroot & Hpar).
    cbn [fst snd] in Hc, Hdoc, Hroot, Hpar. subst c.
    pose proof (In_wf_get _ _ _ (parse_xml_wf class_elems aggs) Hcd) as Hg.
    exists d. repeat split; try assumption.
    rewrite Hpar. unfold class_parameters.
    rewrite (parse_xml_entry_children _ _ _ _ Hg), map_map.
    reflexivity.
Qed.

Lemma parsed_model_descriptors_witness :
  map meta_class
    [mk_meta "Root" "" true [mk_parameter "Item" "class"] None None;
     mk_meta "Item" "an item" false [mk_parameter "name" "string"]
       (Some "1") (Some "*")] =
  keys (fst sample_graph).
Proof.
  exact (proj1 (parsed_model_descriptors _ _ _ sample_metadata)).
Defined.

End ParsedModelMetadata.

(** ** [generate_delta_json] and [generate_res_patched_config] *)

Section DeltaProperties.
Context {value : Type} (py_eqb : value -> value -> bool).
Import Dict DictFacts.

Lemma flat_map_unless {A B : Type} (p : A -> bool) (f : A -> B)
  (l : list A) :
  flat_map (fun x => if p x then [] else [f x]) l =
  map f (filter (fun x => negb (p x)) l).
Proof.
  induction l as [|x l IH]; simpl; [reflexivity|].
  destruct (p x); simpl; now rewrite IH.
Qed.

Lemma filter_filter {A : Type} (p q : A -> bool) (l : list A) :
  filter p (filter q l) = filter (fun x => q x && p x) l.
Proof.
  induction l as [|x l IH]; simpl; [reflexivity|].
  destruct (q x); simpl; [destruct (p x)|]; now rewrite IH.
Qed.

Lemma additions_keys (base patched : Dict.dict value) :
  map add_key (delta_additions base patched) =
  filter (fun k => negb (mem k base)) (keys patched).
Proof.
  unfold delta_additions, keys.
  rewrite (flat_map_unless (fun e => mem (fst e) base)
             (fun e => mk_addition (fst e) (snd e))).
  rewrite map_map. cbn [add_key].
  induction patched as [|[k v] l IH]; simpl; [reflexivity|].
  destruct (mem k base); simpl; now rewrite IH.
Qed.

Lemma deletions_keys (base patched : Dict.dict value) :
  delta_deletions base patched =
  filter (fun k => negb (mem k patched)) (keys base).
Proof.
  unfold delta_deletions.
  rewrite (flat_map_unless (fun k => mem k patched) (fun k => k)).
  apply map_id.
Qed.

Lemma updates_keys (base patched : Dict.dict value) :
  map upd_key (delta_updates py_eqb base patched) =
  filter (differs py_eqb base patched) (keys base).
Proof.
  unfold delta_updates, differs.
  induction (keys base) as [|k l IH]; simpl; [reflexivity|].
  rewrite map_app, IH.
  destruct (get k patched) as [to|]; destruct (get k base) as [from|];
    try reflexivity.
  now destruct (py_eqb from to).
Qed.

(** X11.  The entries of each category come in the iteration order of the
    map they are read from: the added keys are the keys of [patched] absent
    from [base], in the order of [patched]; the deleted keys are the keys of
    [base] absent from [patched], in the order of [base]; the updated keys
    are the keys of [base] whose two values differ, in the order of [base].
    No key is listed twice in a category when the maps have no repeated
    key. *)
Theorem delta_key_order (base patched : Dict.dict value) :
  let d := generate_delta_json py_eqb base patched in
  map add_key (additions d) =
    filter (fun k => negb (mem k base)) (keys patched) /\
  deletions d = filter (fun k => negb (mem k patched)) (keys base) /\
  map upd_key (updates d) = filter (differs py_eqb base patched) (keys base) /\
  (wf patched -> NoDup (map add_key (additions d))) /\
  (wf base -> NoDup (deletions d) /\ NoDup (map upd_key (updates d))).
Proof.
  cbv zeta. cbn [additions deletions updates generate_delta_json].
  rewrite additions_keys, deletions_keys, updates_keys.
  split; [reflexivity | split; [reflexivity | split; [reflexivity|]]].
  split; [intros H; now apply NoDup_filter|].
  intros H. split; now apply NoDup_filter.
Qed.

(** X12.  A key is in at most one category, and a key in a category is a
    key of one of the two maps: added keys are in [patched] only, deleted
    keys in [base] only, updated keys in both. *)
Theorem delta_categories_disjoint (base patched : Dict.dict value)
  (k : string) :
  let d := generate_delta_json py_eqb base patched in
  (In k (map add_key (additions d)) ->
   mem k base = false /\ mem k patched = true) /\
  (In k (deletions d) -> mem k base = true /\ mem k patched = false) /\
  (In k (map upd_key (updates d)) ->
   mem k base = true /\ mem k patched = true) /\
  ~ (In k (map add_key (additions d)) /\ In k (deletions d)) /\
  ~ (In k (map add_key (additions d)) /\ In k (map upd_key (updates d))) /\
  ~ (In k (deletions d) /\ In k (map upd_key (updates d))).
Proof.
  cbv zeta. cbn [additions deletions updates generate_delta_json].
  rewrite additions_keys, deletions_keys, updates_keys.
  assert (Ha : In k (filter (fun k => negb (mem k base)) (keys patched)) ->
               mem k base = false /\ mem k patched = true).
  { intros H. apply filter_In in H as [Hin Hm]. apply mem_keys in Hin.
    now destruct (mem k base). }
  assert (Hd : In k (filter (fun k => negb (mem k patched)) (keys base)) ->
               mem k base = true /\ mem k patched = false).
  { intros H. apply filter_In in H as [Hin Hm]. apply mem_keys in Hin.
    now destruct (mem k patched). }
  assert (Hu : In k (filter (differs py_eqb base patched) (keys base)) ->
               mem k base = true /\ mem k patched = true).
  { intros H. apply filter_In in H as [Hin Hm]. unfold differs, mem in *.
    destruct (get k base); [|discriminate].
    now destruct (get k patched). }
  repeat split; try tauto.
  - intros [H1 H2]. apply Ha in H1. apply Hd in H2. intuition congruence.
  - intros [H1 H2]. apply Ha in H1. apply Hu in H2. intuition congruence.
  - intros [H1 H2]. apply Hd in H1. apply Hu in H2. intuition congruence.
Qed.

(** X13.  Computing the delta in the other direction exchanges additions
    and deletions: the keys deleted from [patched] to [base] are the keys
    added from [base] to [patched], in the same order, and conversely. *)
Theorem delta_reverse (base patched : Dict.dict value) :
  deletions (generate_delta_json py_eqb patched base) =
    map add_key (additions (generate_delta_json py_eqb base patched)) /\
  map add_key (additions (generate_delta_json py_eqb patched base)) =
    deletions (generate_delta_json py_eqb base patched).
Proof.
  cbn [additions deletions generate_delta_json].
  now rewrite !additions_keys, !deletions_keys.
Qed.

End DeltaProperties.

Section PatchProperties.
Context {value : Type}.
Implicit Types (A B base r : Dict.dict value).
Import Dict DictFacts.

Lemma keys_fold_pop (ks : list string) r :
  keys (fold_left (fun r key => pop key r) ks r) =
  filter (fun k => negb (existsb (String.eqb k) ks)) (keys r).
Proof.
  revert r. induction ks as [|k0 ks IH]; intros r; cbn [fold_left existsb].
  - induction (keys r) as [|k l IHl]; simpl; [reflexivity | now f_equal].
  - rewrite IH. unfold pop, keys.
    induction r as [|[k v] r IHr]; simpl; [reflexivity|].
    rewrite (String.eqb_sym k k0).
    destruct (String.eqb k0 k); simpl; [exact IHr|].
    destruct (existsb (String.eqb k) ks); simpl; now rewrite IHr.
Qed.

Lemma keys_fold_set_present {X : Type} (kf : X -> string) (vf : X -> value)
  (l : list X) r :
  (forall a, In a l -> mem (kf a) r = true) ->
  keys (fold_left (fun r a => set (kf a) (vf a) r) l r) = keys r.
Proof.
  revert r. induction l as [|a l IH]; intros r H; simpl; [reflexivity|].
  rewrite IH.
  - rewrite keys_set. now rewrite (H a) by now left.
  - intros a' Hin. apply mem_set. apply H. now right.
Qed.

Lemma keys_fold_set_fresh {X : Type} (kf : X -> string) (vf : X -> value)
  (l : list X) r :
  NoDup (map kf l) ->
  (forall a, In a l -> mem (kf a) r = false) ->
  keys (fold_left (fun r a => set (kf a) (vf a) r) l r) =
  keys r ++ map kf l.
Proof.
  revert r. induction l as [|a l IH]; intros r Hnd H; simpl.
  - now rewrite app_nil_r.
  - inversion Hnd as [|? ? Hnotin Hnd']; subst.
    rewrite IH; [| exact Hnd' |].
    + rewrite keys_set, (H a) by now left. now rewrite <- app_assoc.
    + intros a' Hin. unfold mem. rewrite get_set.
      destruct (String.eqb_spec (kf a) (kf a')) as [E|_].
      * exfalso. apply Hnotin. rewrite E. now apply in_map.
      * apply (H a'). now right.
Qed.

(** X14.  The keys of the patched map, in order: first the keys of [A]
    that [B] also has, in the order of [A]; then the keys of [B] that [A]
    lacks, in the order of [B].  The order of [B] itself is not restored. *)
Theorem patched_key_order (py_eqb : value -> value -> bool) A B :
  wf B ->
  keys (generate_res_patched_config A (generate_delta_json py_eqb A B)) =
  filter (fun k => mem k B) (keys A) ++
  filter (fun k => negb (mem k A)) (keys B).
Proof.
  intros HB. unfold generate_res_patched_config.
  cbn [additions deletions updates generate_delta_json].
  set (R1 := fold_left (fun r key => pop key r) (delta_deletions A B) A).
  assert (H1 : keys R1 = filter (fun k => mem k B) (keys A)).
  { unfold R1. rewrite keys_fold_pop. apply filter_ext_in.
    intros k Hk. rewrite existsb_deletions.
    apply mem_keys in Hk. rewrite Hk. simpl. apply negb_involutive. }
  set (R2 := fold_left (fun r u => set (upd_key u) (upd_to u) r)
               (delta_updates py_eqb A B) R1).
  assert (H2 : keys R2 = keys R1).
  { unfold R2. apply keys_fold_set_present. intros u Hu.
    apply In_delta_updates in Hu as (Hc & Hp & _).
    apply mem_keys. rewrite H1. apply filter_In. split.
    - apply mem_keys. unfold mem. now rewrite Hc.
    - unfold mem. now rewrite Hp. }
  rewrite keys_fold_set_fresh.
  - now rewrite H2, H1, additions_keys.
  - rewrite additions_keys. now apply NoDup_filter.
  - intros a Ha. apply In_delta_additions in Ha as [_ Hm].
    destruct (mem (add_key a) R2) eqn:E; [|reflexivity].
    apply mem_keys in E. rewrite H2, H1 in E.
    apply filter_In in E as [E _]. apply mem_keys in E. congruence.
Qed.

(** X15.  Applying a delta to the map it has already been applied to
    changes no binding: the patch can be replayed. *)
Theorem patch_replay base (d : delta value) (k : string) :
  get k (generate_res_patched_config (generate_res_patched_config base d) d) =
  get k (generate_res_patched_config base d).
Proof.
  rewrite patched_get, (patched_get base d k).
  destruct (last_binding add_key add_value k (additions d)); [reflexivity|].
  destruct (last_binding upd_key upd_to k (updates d)); [reflexivity|].
  now destruct (existsb (String.eqb k) (deletions d)).
Qed.

(** X16.  When the comparison holds of identical values only, as Python's
    [==] does on strings, the patched map binds every key exactly as [B]
    does. *)
Theorem patch_exact (py_eqb : value -> value -> bool) A B :
  (forall a b, py_eqb a b = true -> a = b) ->
  wf B ->
  forall k,
    get k (generate_res_patched_config A (generate_delta_json py_eqb A B)) =
    get k B.
Proof.
  intros Heq HB k. rewrite patched_get.
  cbn [additions deletions updates generate_delta_json].
  rewrite last_addition by exact HB.
  rewrite last_update, existsb_deletions. unfold mem.
  destruct (get k A) as [va|] eqn:Ea, (get k B) as [vb|] eqn:Eb; simpl;
    try reflexivity.
  destruct (py_eqb va vb) eqn:E; [|reflexivity].
  now rewrite (Heq _ _ E).
Qed.

End PatchProperties.

Lemma patched_key_order_witness :
  Dict.keys (generate_res_patched_config example_base
          (generate_delta_json json_py_eqb example_base example_patched)) =
  filter (fun k => Dict.mem k example_patched) (Dict.keys example_base) ++
  filter (fun k => negb (Dict.mem k example_base)) (Dict.keys example_patched).
Proof.
  apply (patched_key_order json_py_eqb example_base example_patched).
  unfold Dict.wf. simpl. repeat constructor; simpl; intuition discriminate.
Defined.

Lemma patch_exact_witness :
  Dict.get "port" (generate_res_patched_config text_base
                     (generate_delta_json String.eqb text_base text_patched)) =
  Dict.get "port" text_patched.
Proof.
  apply (patch_exact String.eqb text_base text_patched).
  - intros a b H. now apply String.eqb_eq.
  - unfold Dict.wf. simpl. repeat constructor; simpl; intuition discriminate.
Defined.

(** ** Multiplicities that parse *)

Section ParseProperties.
Local Open Scope string_scope.

Lemma first_separator (s : string) :
  str_in ".." s = true ->
  exists p t, s = p ++ ".." ++ t /\ str_in ".." (p ++ ".") = false.
Proof.
  induction s as [|c s IH]; [discriminate|].
  cbn [str_in]. intros H.
  destruct (str_prefix ".." (String c s)) eqn:Hp.
  - destruct (prefix_split _ _ Hp) as (b & Hb).
    exists "", b. split; [exact Hb | reflexivity].
  - simpl in H. destruct (IH H) as (p & t & -> & Hno).
    exists (String c p), t. split; [reflexivity|].
    change (String c p ++ ".") with (String c (p ++ ".")).
    cbn [str_in]. rewrite Hno, orb_false_r.
    destruct p as [|c' p].
    + change ("" ++ ".." ++ t) with (String "." (String "." t)) in Hp.
      rewrite prefix_dotdot in Hp.
      change ("" ++ ".") with (String "." "").
      now rewrite prefix_dotdot.
    + change (String c' p ++ ".." ++ t)
        with (String c' (p ++ ".." ++ t)) in Hp.
      rewrite prefix_dotdot in Hp.
      change (String c' p ++ ".") with (String c' (p ++ ".")).
      now rewrite prefix_dotdot.
Qed.

Lemma split_dotdot_single (t mx : string) :
  split_dotdot t = [mx] -> t = mx /\ str_in ".." t = false.
Proof.
  intros H. split.
  - rewrite <- (join_split_dotdot t), H. reflexivity.
  - destruct (str_in ".." t) eqn:E; [|reflexivity].
    destruct (str_in_split _ _ E) as (a & b & Et).
    pose proof (split_dotdot_length_app a b) as H1.
    pose proof (split_dotdot_length_pos b) as H2.
    rewrite <- Et, H in H1. simpl in H1. lia.
Qed.

(** X17.  A multiplicity parses to the bounds [(mn, mx)] in two cases
    only: it has no [".."] and both bounds are the whole string; or it is
    [mn], a separator and [mx], where the separator is the first one in the
    string and [mx] contains none.  So a parsed bound never contains
    [".."]. *)
Theorem parse_multiplicity_Ok_iff (s mn mx : string) :
  parse_multiplicity s = Ok (mn, mx) <->
  (str_in ".." s = false /\ mn = s /\ mx = s) \/
  (s = mn ++ ".." ++ mx /\ str_in ".." (mn ++ ".") = false /\
   str_in ".." mx = false).
Proof.
  split.
  - destruct (str_in ".." s) eqn:E.
    + intros H. right.
      destruct (first_separator s E) as (p & t & Es & Hp).
      unfold parse_multiplicity in H. rewrite E in H.
      rewrite Es, split_dotdot_first in H by exact Hp.
      destruct (split_dotdot t) as [|q [|q' l]] eqn:Et; try discriminate.
      injection H as <- <-.
      destruct (split_dotdot_single _ _ Et) as (-> & Hq).
      auto.
    + rewrite parse_single by exact E. intros [= <- <-]. left. auto.
  - intros [(E & -> & ->)|(-> & Hmn & Hmx)];
      [now apply parse_single | now apply parse_pair].
Qed.

End ParseProperties.

(** ** Containment in a parsed model *)

Section ParsedContainment.
Import Dict DictFacts.

Lemma parse_xml_mem (class_elems : list class_elem)
  (aggs : list aggregation) (c : string) :
  mem c (fst (parse_xml class_elems aggs)) = declared class_elems c.
Proof.
  unfold parse_xml.
  destruct (parse_aggregations_state aggs
              (fold_left parse_class class_elems []) []) as (_ & Hk & _).
  rewrite (mem_of_keys _ _ c Hk). apply parse_classes_mem.
Qed.

(** X18.  In the model [parse_xml] builds, class [c] contains class [c']
    exactly when some edge has target [c] and source [c'] and both names
    are declared: an edge makes its source a child of its target. *)
Theorem parsed_step_iff (class_elems : list class_elem)
  (aggs : list aggregation) (c c' : string) :
  step (fst (parse_xml class_elems aggs)) c c' <->
  exists a, In a aggs /\ target a = c /\ source a = c' /\
            declared class_elems c = true /\
            declared class_elems c' = true.
Proof.
  split.
  - intros (d & ch & Hd & Hin & <-).
    rewrite (parse_xml_entry_children _ _ _ _ Hd) in Hin.
    apply in_map_iff in Hin as (a & <- & Ha).
    apply filter_In in Ha as (Ha & Hc).
    apply andb_prop in Hc as (Ht & Hs). apply String.eqb_eq in Ht.
    exists a. repeat split; try assumption.
    rewrite <- parse_xml_mem with (aggs := aggs). unfold mem. now rewrite Hd.
  - intros (a & Ha & <- & <- & Ht & Hs).
    rewrite <- parse_xml_mem with (aggs := aggs) in Ht. unfold mem in Ht.
    destruct (get (target a) (fst (parse_xml class_elems aggs)))
      as [d|] eqn:Hd; [|discriminate].
    exists d, (child_of_edge a). split; [exact Hd|]. split; [|reflexivity].
    rewrite (parse_xml_entry_children _ _ _ _ Hd).
    apply in_map. apply filter_In. split; [exact Ha|].
    now rewrite String.eqb_refl, Hs.
Qed.

End ParsedContainment.

Lemma generate_meta_json_first_error_witness :
  generate_meta_json refused_classes refused_edges = Raise ValueError.
Proof.
  apply (generate_meta_json_first_error
           [("Root", mk_class true "" [] [])]
           [("Box", mk_class false "" [] [])]
           "Item" (mk_class false "" [] [])
           [mk_aggregation "Box" "Root" None (Some "1")] []
           (mk_aggregation "Item" "Root" (Some "1..2..3") (Some "1"))
           ValueError).
  - intros a [<-|[<-|[]]] [E|[]]; discriminate E.
  - intros a [<-|[]] [=].
  - reflexivity.
  - reflexivity.
Defined.
